(** * Verification of the patient-data cleaner ([src/correção nomes/adicionarnome.py])

    Shallow embedding of [PatientDataCleaner]: Python strings are lists of
    Unicode code points, the [re] patterns of the source are parsed from
    their source text by a small backtracking regular-expression engine,
    dictionaries are records or stdpp [gmap]s, and the ambient [random]
    module is an explicit stream of draws threaded through a state/error
    monad. *)

From Stdlib Require Import String Ascii NArith ZArith List Bool Lia.
From stdpp Require Import base gmap strings list.
Import ListNotations.

#[local] Open Scope N_scope.

(** ** Python strings *)
Module Py.

(** A Python [str]: a sequence of code points. *)
Abbreviation str := (list N).

(** Decoding of a UTF-8 encoded Rocq literal into its code points. *)
Fixpoint utf8 (s : string) : str :=
  match s with
  | EmptyString => []
  | String a r =>
      let b := N_of_ascii a in
      if b <? 128 then b :: utf8 r
      else if b <? 224 then
        match r with
        | String a2 r2 =>
            (N.lor (N.shiftl (N.land b 31) 6) (N.land (N_of_ascii a2) 63)) :: utf8 r2
        | EmptyString => [b]
        end
      else if b <? 240 then
        match r with
        | String a2 (String a3 r3) =>
            (N.lor (N.shiftl (N.land b 15) 12)
              (N.lor (N.shiftl (N.land (N_of_ascii a2) 63) 6)
                     (N.land (N_of_ascii a3) 63))) :: utf8 r3
        | _ => [b]
        end
      else
        match r with
        | String a2 (String a3 (String a4 r4)) =>
            (N.lor (N.shiftl (N.land b 7) 18)
              (N.lor (N.shiftl (N.land (N_of_ascii a2) 63) 12)
                (N.lor (N.shiftl (N.land (N_of_ascii a3) 63) 6)
                       (N.land (N_of_ascii a4) 63)))) :: utf8 r4
        | _ => [b]
        end
  end.

(** [str.lower] / [str.upper] on one code point (ASCII and Latin-1). *)
Definition lower_c (c : N) : N :=
  if (65 <=? c) && (c <=? 90) then c + 32
  else if (192 <=? c) && (c <=? 222) && negb (c =? 215) then c + 32
  else c.

Definition upper_c (c : N) : N :=
  if (97 <=? c) && (c <=? 122) then c - 32
  else if (224 <=? c) && (c <=? 254) && negb (c =? 247) then c - 32
  else c.

Definition lower (s : str) : str := map lower_c s.

(** [str.isspace] on one code point, also the class [\s] of [re]. *)
Definition is_space (c : N) : bool :=
  ((9 <=? c) && (c <=? 13)) || ((28 <=? c) && (c <=? 32)) ||
  (c =? 133) || (c =? 160) || (c =? 5760) ||
  ((8192 <=? c) && (c <=? 8202)) || (c =? 8232) || (c =? 8233) ||
  (c =? 8239) || (c =? 8287) || (c =? 12288).

Definition is_digit (c : N) : bool := (48 <=? c) && (c <=? 57).

(** The class [\w]: letters and digits of ASCII, Latin-1 and Latin
    Extended-A/B, and the underscore. *)
Definition is_word (c : N) : bool :=
  is_digit c || ((65 <=? c) && (c <=? 90)) || ((97 <=? c) && (c <=? 122)) ||
  (c =? 95) || (c =? 170) || (c =? 181) || (c =? 186) ||
  ((192 <=? c) && (c <=? 591) && negb (c =? 215) && negb (c =? 247)).

Fixpoint lstrip (s : str) : str :=
  match s with
  | c :: r => if is_space c then lstrip r else s
  | [] => []
  end.

Definition strip (s : str) : str := rev (lstrip (rev (lstrip s))).

Fixpoint starts_with (p s : str) : bool :=
  match p, s with
  | [], _ => true
  | a :: p', b :: s' => (a =? b) && starts_with p' s'
  | _ :: _, [] => false
  end.

Definition ends_with (p s : str) : bool := starts_with (rev p) (rev s).

(** [sub in s] *)
Fixpoint contains (sub s : str) : bool :=
  match s with
  | [] => starts_with sub []
  | _ :: r => starts_with sub s || contains sub r
  end.

(** [s.find(sub)]: the first index, or [-1]. *)
Fixpoint find_from (sub s : str) (i : Z) : Z :=
  match s with
  | [] => if starts_with sub [] then i else (-1)%Z
  | _ :: r => if starts_with sub s then i else find_from sub r (i + 1)
  end.

Definition find (s sub : str) : Z := find_from sub s 0.

(** Python slicing [s[a:b]] with negative indices counted from the end. *)
Definition norm_idx (len : Z) (i : Z) : nat :=
  Z.to_nat (if (i <? 0)%Z then Z.max 0 (len + i) else Z.min i len).

Definition slice (s : str) (a : Z) (b : option Z) : str :=
  let len := Z.of_nat (length s) in
  let i := norm_idx len a in
  let j := match b with Some b => norm_idx len b | None => length s end in
  firstn (j - i) (skipn i s).

(** [s.split(sep)] for a non-empty separator, and with [maxsplit=1]. *)
Fixpoint split_aux (fuel : nat) (sep s acc : str) : list str :=
  match fuel with
  | O => [rev acc ++ s]
  | S f =>
      match s with
      | [] => [rev acc]
      | c :: r =>
          if starts_with sep s then rev acc :: split_aux f sep (skipn (length sep) s) []
          else split_aux f sep r (c :: acc)
      end
  end.

Definition split (s sep : str) : list str := split_aux (S (length s)) sep s [].

Definition split1 (s sep : str) : list str :=
  match split s sep with
  | [] => [s]
  | a :: rest =>
      match rest with
      | [] => [a]
      | _ => [a; skipn (length a + length sep) s]
      end
  end.

Fixpoint join (sep : str) (l : list str) : str :=
  match l with
  | [] => []
  | [a] => a
  | a :: r => a ++ sep ++ join sep r
  end.

Definition str_eqb (a b : str) : bool :=
  if decide (a = b) then true else false.

Definition mem (s : str) (l : list str) : bool := existsb (str_eqb s) l.

(** [str(n)] for an integer. *)
Fixpoint digits_aux (fuel : nat) (n : N) (acc : str) : str :=
  match fuel with
  | O => acc
  | S f => let acc' := (48 + n mod 10) :: acc in
           if n <? 10 then acc' else digits_aux f (n / 10) acc'
  end.

Definition show_Z (z : Z) : str :=
  let d := digits_aux 64 (Z.to_N (Z.abs z)) [] in
  if (z <? 0)%Z then 45 :: d else d.

(** [int(s)] on a string of ASCII digits. *)
Definition read_Z (s : str) : Z :=
  Z.of_N (fold_left (fun acc c => acc * 10 + (c - 48)) s 0).

End Py.

Import Py.
Abbreviation U := Py.utf8.

(** ** The [re] module: a backtracking matcher with Python's priorities *)
Module Re.

Inductive citem : Type :=
| CRange (lo hi : N)
| CDigit
| CSpace
| CWord.

Inductive rx : Type :=
| REmpty
| RLit (c : N)
| RClass (neg : bool) (items : list citem)
| RSeq (a b : rx)
| RAlt (a b : rx)
| RStar (a : rx)
| RGroup (n : nat) (a : rx)
| RBol
| RWordB
| RNegLook (a : rx).

(** The compiled flags of a pattern. *)
Record flags := { icase : bool; multiline : bool }.

Definition NOFLAGS := {| icase := false; multiline := false |}.
Definition IGNORECASE := {| icase := true; multiline := false |}.
Definition IGNORECASE_MULTILINE := {| icase := true; multiline := true |}.

Definition item_ok (c : N) (it : citem) : bool :=
  match it with
  | CRange lo hi => (lo <=? c) && (c <=? hi)
  | CDigit => is_digit c
  | CSpace => is_space c
  | CWord => is_word c
  end.

Definition class_ok (fl : flags) (neg : bool) (its : list citem) (c : N) : bool :=
  let hit x := existsb (item_ok x) its in
  let found := hit c || (icase fl && (hit (lower_c c) || hit (upper_c c))) in
  if neg then negb found else found.

Definition lit_ok (fl : flags) (l c : N) : bool :=
  (l =? c) || (icase fl && (lower_c l =? lower_c c)).

(** Capture groups: group number to span. *)
Definition caps := list (nat * (nat * nat)).

Section Match.
Variable fl : flags.
Variable inp : str.

Definition at_ (i : nat) : option N := nth_error inp i.

Definition word_at (i : nat) : bool :=
  match at_ i with Some c => is_word c | None => false end.

Fixpoint m (r : rx) (i : nat) (cp : caps)
         (k : nat -> caps -> option (nat * caps)) {struct r}
  : option (nat * caps) :=
  match r with
  | REmpty => k i cp
  | RLit l =>
      match at_ i with
      | Some c => if lit_ok fl l c then k (S i) cp else None
      | None => None
      end
  | RClass neg its =>
      match at_ i with
      | Some c => if class_ok fl neg its c then k (S i) cp else None
      | None => None
      end
  | RSeq a b => m a i cp (fun j cp' => m b j cp' k)
  | RAlt a b =>
      match m a i cp k with
      | Some res => Some res
      | None => m b i cp k
      end
  | RStar a =>
      (fix loop (fuel : nat) (i : nat) (cp : caps) {struct fuel} :=
         match fuel with
         | O => k i cp
         | S f =>
             match m a i cp (fun j cp' => if Nat.eqb j i then None else loop f j cp') with
             | Some res => Some res
             | None => k i cp
             end
         end) (S (length inp - i)) i cp
  | RGroup n a => m a i cp (fun j cp' => k j ((n, (i, j)) :: cp'))
  | RBol =>
      match i with
      | O => k i cp
      | S i' => if multiline fl && (match at_ i' with Some c => c =? 10 | None => false end)
                then k i cp else None
      end
  | RWordB =>
      let before := match i with O => false | S i' => word_at i' end in
      if xorb before (word_at i) then k i cp else None
  | RNegLook a =>
      match m a i cp (fun j cp' => Some (j, cp')) with
      | Some _ => None
      | None => k i cp
      end
  end.

Definition match_at (r : rx) (i : nat) : option (nat * caps) :=
  m r i [] (fun j cp => Some (j, cp)).

(** [re.search] from position [i]: start, end and captures. *)
Fixpoint search_from (fuel : nat) (r : rx) (i : nat) : option (nat * nat * caps) :=
  match match_at r i with
  | Some (j, cp) => Some (i, j, cp)
  | None =>
      match fuel with
      | O => None
      | S f => search_from f r (S i)
      end
  end.

Definition search (r : rx) : option (nat * nat * caps) :=
  search_from (length inp) r 0.

(** All non-overlapping matches, scanning left to right. *)
Fixpoint matches_from (fuel : nat) (r : rx) (i : nat) : list (nat * nat * caps) :=
  match fuel with
  | O => []
  | S f =>
      match search_from (length inp - i) r i with
      | Some (s, e, cp) =>
          (s, e, cp) :: matches_from f r (if Nat.eqb e s then S e else e)
      | None => []
      end
  end.

Definition all_matches (r : rx) := matches_from (S (length inp)) r 0.

End Match.

(** A compiled pattern: its syntax tree, its flags and its group count. *)
Record pattern := { prx : rx; pflags : flags; ngroups : nat }.

Definition span (s : str) (sp : nat * nat) : str :=
  firstn (snd sp - fst sp) (skipn (fst sp) s).

Definition group (s : str) (cp : caps) (n : nat) : option str :=
  match List.find (fun p => Nat.eqb (fst p) n) cp with
  | Some (_, sp) => Some (span s sp)
  | None => None
  end.

(** A match object: the whole match and the captures. *)
Record mobj := { mstart : nat; mend : nat; mcaps : caps }.

Definition re_search (p : pattern) (s : str) : option mobj :=
  match search (pflags p) s (prx p) with
  | Some (st, e, cp) => Some {| mstart := st; mend := e; mcaps := cp |}
  | None => None
  end.

Definition group0 (s : str) (mo : mobj) : str := span s (mstart mo, mend mo).

(** [re.findall]: whole matches without groups, group 1 with one group. *)
Definition findall (p : pattern) (s : str) : list str :=
  map (fun '(st, e, cp) =>
         if Nat.eqb (ngroups p) 0 then span s (st, e)
         else match group s cp 1 with Some g => g | None => [] end)
      (all_matches (pflags p) s (prx p)).

(** [re.sub] with a replacement that holds no group reference. *)
Fixpoint rebuild (s : str) (repl : str) (i : nat) (ms : list (nat * nat * caps)) : str :=
  match ms with
  | [] => skipn i s
  | (st, e, _) :: r => firstn (st - i) (skipn i s) ++ repl ++ rebuild s repl e r
  end.

Definition sub (p : pattern) (repl s : str) : str :=
  rebuild s repl 0 (all_matches (pflags p) s (prx p)).

(** [re.escape(s)] compiled: the literal string [s]. *)
Definition escape (fl : flags) (s : str) : pattern :=
  {| prx := fold_right (fun c r => RSeq (RLit c) r) REmpty s; pflags := fl; ngroups := 0 |}.

End Re.

(** ** Parsing the pattern text of the source into [Re.rx] *)
Module ReParse.
Import Re.

Definition is_c (c : N) (s : str) : bool :=
  match s with x :: _ => x =? c | [] => false end.

Definition seq_app (acc a : rx) : rx :=
  match acc with REmpty => a | _ => RSeq acc a end.

Definition quant (a : rx) (s : str) : rx * str :=
  match s with
  | q :: r =>
      if q =? 42 then (RStar a, r)
      else if q =? 43 then (RSeq a (RStar a), r)
      else if q =? 63 then (RAlt a REmpty, r)
      else (a, s)
  | [] => (a, s)
  end.

Definition esc_item (c : N) : citem :=
  if c =? 115 then CSpace else if c =? 100 then CDigit
  else if c =? 119 then CWord else CRange c c.

(** The items of a bracket class, up to the closing [\]]. *)
Fixpoint p_class (fuel : nat) (s : str) : option (list citem * str) :=
  match fuel with
  | O => None
  | S f =>
      match s with
      | [] => None
      | c :: r =>
          if c =? 93 then Some ([], r)
          else
            let '(it, r') :=
              if c =? 92 then
                match r with e :: r2 => (esc_item e, r2) | [] => (CRange c c, r) end
              else
                match r with
                | d :: hi :: r2 => if (d =? 45) && negb (hi =? 93)
                                   then (CRange c hi, r2) else (CRange c c, r)
                | _ => (CRange c c, r)
                end in
            match p_class f r' with
            | Some (its, rest) => Some (it :: its, rest)
            | None => None
            end
      end
  end.

Fixpoint p_alt (fuel : nat) (s : str) (g : nat) : option (rx * str * nat) :=
  match fuel with
  | O => None
  | S f =>
      match p_seq f s g REmpty with
      | Some (a, rest, g') =>
          match rest with
          | c :: rest' =>
              if c =? 124 then
                match p_alt f rest' g' with
                | Some (b, rest2, g2) => Some (RAlt a b, rest2, g2)
                | None => None
                end
              else Some (a, rest, g')
          | [] => Some (a, rest, g')
          end
      | None => None
      end
  end
with p_seq (fuel : nat) (s : str) (g : nat) (acc : rx) : option (rx * str * nat) :=
  match fuel with
  | O => None
  | S f =>
      match s with
      | [] => Some (acc, [], g)
      | c :: _ =>
          if (c =? 124) || (c =? 41) then Some (acc, s, g)
          else
            match p_atom f s g with
            | Some (a, rest, g') =>
                let '(a', rest') := quant a rest in p_seq f rest' g' (seq_app acc a')
            | None => None
            end
      end
  end
with p_atom (fuel : nat) (s : str) (g : nat) : option (rx * str * nat) :=
  match fuel with
  | O => None
  | S f =>
      match s with
      | [] => None
      | c :: r =>
          if c =? 40 then
            let close a rest g' :=
              match rest with
              | x :: rest' => if x =? 41 then Some (a, rest', g') else None
              | [] => None
              end in
            match r with
            | q :: k :: r2 =>
                if (q =? 63) && (k =? 58) then
                  match p_alt f r2 g with
                  | Some (a, rest, g') => close a rest g'
                  | None => None
                  end
                else if (q =? 63) && (k =? 33) then
                  match p_alt f r2 g with
                  | Some (a, rest, g') => close (RNegLook a) rest g'
                  | None => None
                  end
                else
                  match p_alt f r (S g) with
                  | Some (a, rest, g') => close (RGroup (S g) a) rest g'
                  | None => None
                  end
            | _ =>
                match p_alt f r (S g) with
                | Some (a, rest, g') => close (RGroup (S g) a) rest g'
                | None => None
                end
            end
          else if c =? 91 then
            match r with
            | x :: r2 =>
                if x =? 94 then
                  match p_class f r2 with
                  | Some (its, rest) => Some (RClass true its, rest, g)
                  | None => None
                  end
                else
                  match p_class f r with
                  | Some (its, rest) => Some (RClass false its, rest, g)
                  | None => None
                  end
            | [] => None
            end
          else if c =? 92 then
            match r with
            | e :: r2 =>
                if e =? 98 then Some (RWordB, r2, g)
                else if (e =? 115) || (e =? 100) || (e =? 119)
                then Some (RClass false [esc_item e], r2, g)
                else Some (RLit e, r2, g)
            | [] => None
            end
          else if c =? 94 then Some (RBol, r, g)
          else if c =? 46 then Some (RClass true [CRange 10 10], r, g)
          else Some (RLit c, r, g)
      end
  end.

Definition parse (s : str) : option (rx * nat) :=
  match p_alt (4 * length s + 4) s 0 with
  | Some (r, [], g) => Some (r, g)
  | _ => None
  end.

End ReParse.

(** [re.compile(text, flags)]; an unparsable text yields the pattern that
    matches nothing (no pattern of the source is unparsable). *)
Definition re_compile (text : string) (fl : Re.flags) : Re.pattern :=
  match ReParse.parse (U text) with
  | Some (r, g) => {| Re.prx := r; Re.pflags := fl; Re.ngroups := g |}
  | None => {| Re.prx := Re.RClass false []; Re.pflags := fl; Re.ngroups := 0 |}
  end.

Definition re_ok (text : string) : bool :=
  match ReParse.parse (U text) with Some _ => true | None => false end.

Definition any_in (terms : list string) (s : str) : bool :=
  existsb (fun t => contains (U t) s) terms.

(** [for pattern in pats: s = re.sub(pattern, repl, s, flags)] *)
Definition sub_all (pats : list string) (fl : Re.flags) (repl : string) (s : str) : str :=
  fold_left (fun s p => Re.sub (re_compile p fl) (U repl) s) pats s.

(** [PatientDataCleaner._clean_description] *)
Module CleanDescription.

(** Step 1: clinical phrases collected into [preserved_medical_parts],
    a list the function never reads afterwards. *)
Definition medical_terms : list string :=
  ["com\s+dor"; "com\s+febre"; "com\s+náuseas"; "com\s+vômitos";
   "com\s+diarréia"; "com\s+constipação"; "com\s+tontura";
   "com\s+fraqueza"; "com\s+fadiga"; "com\s+dispneia";
   "com\s+taquicardia"; "com\s+hipotensão"; "com\s+hipertensão";
   "referindo\s+dor"; "referindo\s+febre"; "referindo\s+náuseas";
   "apresenta\s+dor"; "apresenta\s+febre"; "apresenta\s+sintomas";
   "queixa\s+de"; "com\s+história"; "com\s+antecedente";
   "em\s+uso\s+de"; "faz\s+uso\s+de"; "com\s+alergia"].

Definition filiation_start_patterns : list string :=
  ["^(Dona?\s+[A-Z][a-z]+\s+[A-Z][a-z]+),\s*\d+\s*anos?,?\s*,?\s*";
   "^(Sr\.?\s+[A-Z][a-z]+\s+[A-Z][a-z]+),\s*\d+\s*anos?,?\s*,?\s*";
   "^(Dr\.?\s+[A-Z][a-z]+\s+[A-Z][a-z]+),\s*\d+\s*anos?,?\s*,?\s*";
   "^(Sra\.?\s+[A-Z][a-z]+\s+[A-Z][a-z]+),\s*\d+\s*anos?,?\s*,?\s*";
   "^([A-Z][a-z]+\s+[A-Z][a-z]+),\s*\d+\s*anos?,?\s*,?\s*";
   "^(paciente\s+[A-Z][a-z]+\s+[A-Z][a-z]+),\s*\d+\s*anos?,?\s*,?\s*";
   "^(Paciente\s+[A-Z][a-z]+\s+[A-Z][a-z]+),\s*\d+\s*anos?,?\s*,?\s*"].

Definition clinical_indicators : list string :=
  ["^(apresenta|refere|com|queixa|história|antecedente|em\s+uso|diagnóstico)";
   "^(dor|febre|náusea|vômito|cefaleia|tontura|fraqueza)";
   "^(é\s+trazid|chega|comparece|procura)"].

Fixpoint first_search (pats : list string) (fl : Re.flags) (s : str) : option (string * Re.mobj) :=
  match pats with
  | [] => None
  | p :: r =>
      match Re.re_search (re_compile p fl) s with
      | Some mo => Some (p, mo)
      | None => first_search r fl s
      end
  end.

(** Step 2: the leading identification clause. *)
Definition step2 (cleaned : str) : str :=
  match first_search filiation_start_patterns Re.IGNORECASE_MULTILINE cleaned with
  | Some (_, mo) =>
      let filiation_part := Re.group0 cleaned mo in
      let remaining_text := strip (slice cleaned (Z.of_nat (length filiation_part)) None) in
      let clinical_start :=
        match first_search clinical_indicators Re.IGNORECASE remaining_text with
        | Some (_, cm) => Re.mstart cm
        | None => length remaining_text
        end in
      let clinical_part := strip (slice remaining_text (Z.of_nat clinical_start) None) in
      match clinical_part with
      | [] => remaining_text
      | _ => clinical_part
      end
  | None => cleaned
  end.

Definition patient_name_patterns : list string :=
  ["Paciente\s+[A-Z][a-z]+\s+[A-Z][a-z]+,";
   "Paciente\s+[A-Z][a-z]+\s+[A-Z][a-z]+\s+[A-Z][a-z]+,";
   "Paciente\s+[A-Z][a-z]+,";
   "Paciente\s+[A-Z][a-z]+\s+[A-Z][a-z]+";
   "Paciente\s+[A-Z][a-z]+\s+[A-Z][a-z]+\s+[A-Z][a-z]+";
   "Paciente\s+[A-Z][a-z]+"].

Definition start_name_patterns : list string :=
  ["^[A-Z][a-z]+\s+[A-Z][a-z]+,";
   "^[A-Z][a-z]+\s+[A-Z][a-z]+\s+[A-Z][a-z]+,";
   "^[A-Z][a-z]+,"].

Definition age_patterns : list string :=
  ["\b\d+\s*anos?\b(?!\s*(?:de\s+)?(dor|febre|diarréia|constipação|tontura|fraqueza|dispneia|taquicardia|hipotensão|hipertensão|diabetes|câncer|avc|infarto))";
   ",\s*\d+\s*anos?,"].

Definition remaining_name_patterns : list string :=
  ["\bDona?\s+[A-Z][a-z]+\s+[A-Z][a-z]+\b";
   "\bSr\.?\s+[A-Z][a-z]+\s+[A-Z][a-z]+\b";
   "\bSra\.?\s+[A-Z][a-z]+\s+[A-Z][a-z]+\b";
   "\b[A-Z][a-z]+\s+[A-Z][a-z]+\s+[A-Z][a-z]+\b";
   "\b[A-Z][a-z]+\s+[A-Z][a-z]+\b"].

Definition professional_terms : list string :=
  ["cardiologista"; "ortopedista"; "clínico"; "pediatra"; "ginecologista";
   "cirurgião"; "médico"; "enfermeiro"; "profissional"; "especialista"].

(** One [match] of the loop over the residual proper names. *)
Definition name_step (cleaned mt : str) : str :=
  let match_index := find cleaned mt in
  let context_before := strip (slice cleaned 0 (Some match_index)) in
  let context_after := strip (slice cleaned (match_index + Z.of_nat (length mt)) None) in
  if (ends_with (U "Dr.") context_before || ends_with (U "Dra.") context_before ||
      ends_with (U "Dr") context_before || ends_with (U "Dra") context_before) &&
     any_in professional_terms (lower context_after)
  then cleaned
  else if contains (U "é atendido pelo") (lower context_before) ||
          contains (U "atendido pela") (lower context_before)
  then cleaned
  else Re.sub (Re.escape Re.NOFLAGS mt) [] cleaned.

Definition step3 (cleaned : str) : str :=
  let cleaned := sub_all patient_name_patterns Re.IGNORECASE "Paciente" cleaned in
  let cleaned := sub_all start_name_patterns Re.IGNORECASE "" cleaned in
  let cleaned := sub_all age_patterns Re.IGNORECASE "" cleaned in
  fold_left (fun cleaned p =>
               fold_left name_step (Re.findall (re_compile p Re.NOFLAGS) cleaned) cleaned)
            remaining_name_patterns cleaned.

Definition age_gender_patterns : list string :=
  ["paciente\s+de\s*\d+\s*anos?,?\s*(?:do\s+sexo\s+(?:masculino|feminino))?,?\s*";
   "sexo\s+(masculino|feminino),?\s*idade\s+de\s*\d+\s*anos?,?\s*";
   "idade\s+de\s*\d+\s*anos?,?\s*(?:do\s+sexo\s+(?:masculino|feminino))?,?\s*";
   "de\s*\d+\s*anos?,?\s*(?:de\s+idade)?,?\s*(?:do\s+sexo\s+(?:masculino|feminino))?,?\s*";
   "com\s*\d+\s*anos?,?\s*(?:de\s+idade)?,?\s*";
   "aos?\s*\d+\s*anos?,?\s*"].

Definition age_context_terms : list string :=
  ["dor"; "febre"; "sintomas"; "queixa"; "história"; "antecedente"].

Definition age_gender_step (cleaned mt : str) : str :=
  let context_after := strip (slice cleaned (find cleaned mt + Z.of_nat (length mt)) None) in
  if any_in age_context_terms (lower context_after) then cleaned
  else Re.sub (Re.escape Re.IGNORECASE mt) [] cleaned.

Definition step4 (cleaned : str) : str :=
  fold_left (fun cleaned p =>
               fold_left age_gender_step (Re.findall (re_compile p Re.IGNORECASE) cleaned) cleaned)
            age_gender_patterns cleaned.

Definition occupation_patterns : list string :=
  ["\bmotorista\s+de\s+aplicativo\b"; "\bmotorista\s+de\s+ônibus\b";
   "\bcozinheir[ao]?\b"; "\bprofessor[ao]?\b"; "\bprofessora?\b";
   "\bmédic[ao]?\b"; "\benfermeir[ao]?\b"; "\bengenheir[ao]?\b";
   "\badvogad[ao]?\b"; "\bcomerciante\b"; "\bempresári[ao]?\b";
   "\bfuncionári[ao]?\b"; "\bestudante\b"; "\bdoméstica?\b";
   "\baposentad[ao]?\b"; "\btrabalhador\s+rural\b";
   "\banalista\s+financeiro\b"; "\bpedreiro\b"].

Definition occupation_context_terms : list string :=
  ["com dor"; "com febre"; "referindo"; "apresenta"; "queixa"; "diagnóstico"].

Definition occupation_step (cleaned mt : str) : str :=
  let match_index := find (lower cleaned) (lower mt) in
  let context_before := strip (slice cleaned 0 (Some match_index)) in
  let context_after := strip (slice cleaned (match_index + Z.of_nat (length mt)) None) in
  if contains (U ",") context_before && any_in ["anos"; "idade"] (lower context_before)
  then cleaned
  else if any_in occupation_context_terms (lower context_after) then cleaned
  else if match Re.re_search (re_compile "\bex[\s-]" Re.NOFLAGS)
                             (lower (slice context_before (-10) None)) with
          | Some _ => true | None => false end
  then cleaned
  else Re.sub (Re.escape Re.IGNORECASE mt) [] cleaned.

Definition step5 (cleaned : str) : str :=
  fold_left (fun cleaned p =>
               fold_left occupation_step (Re.findall (re_compile p Re.IGNORECASE) cleaned) cleaned)
            occupation_patterns cleaned.

Definition marital_patterns : list string :=
  ["\bcasad[ao]?\b"; "\bsolteir[ao]?\b"; "\bdivorciad[ao]?\b";
   "\bviúv[ao]?\b"; "\bseparad[ao]?\b"].

Definition origin_patterns : list string :=
  ["área\s+rural\s+de\s+\w+"; "área\s+urbana\s+periférica"; "cidade\s+\w+";
   "capital"; "zona\s+urbana"; "procedência\s+[\w\s]+"].

Definition context_replacements : list (string * string) :=
  [("\bseu\s+filho\b", "seu acompanhante"); ("\bsua\s+filha\b", "sua acompanhante");
   ("\bmeu\s+filho\b", "meu acompanhante"); ("\bminha\s+filha\b", "minha acompanhante");
   ("\bo\s+filho\b", "o acompanhante"); ("\ba\s+filha\b", "a acompanhante")].

Definition steps678 (cleaned : str) : str :=
  let cleaned := sub_all marital_patterns Re.IGNORECASE "" cleaned in
  let cleaned := sub_all origin_patterns Re.IGNORECASE "" cleaned in
  fold_left (fun s '(o, n) => Re.sub (re_compile o Re.IGNORECASE) (U n) s)
            context_replacements cleaned.

Definition redundant_starts : list string :=
  ["^\s*o\s+paciente\s+"; "^\s*a\s+paciente\s+"; "^\s*um\s+paciente\s+";
   "^\s*uma\s+paciente\s+"; "^\s*que\s+"; "^\s*e\s+que\s+"].

(** Step 9, up to the removal of redundant openings. *)
Definition tidy (cleaned : str) : str :=
  let cleaned := Re.sub (re_compile "\s+" Re.NOFLAGS) (U " ") cleaned in
  let cleaned := Re.sub (re_compile ",\s*," Re.NOFLAGS) (U ",") cleaned in
  let cleaned := Re.sub (re_compile "\.\s*\." Re.NOFLAGS) (U ".") cleaned in
  let cleaned := Re.sub (re_compile ",\s*\." Re.NOFLAGS) (U ".") cleaned in
  let cleaned := Re.sub (re_compile "\s*," Re.NOFLAGS) (U ",") cleaned in
  let cleaned := strip cleaned in
  let cleaned := Re.sub (re_compile "^[,\.\s]+" Re.NOFLAGS) [] cleaned in
  sub_all redundant_starts Re.IGNORECASE "" cleaned.

Definition clinical_openings : list string :=
  ["com dor"; "referindo"; "apresenta"; "queixa"].

(** The end of step 9: the canonical opening and the capital letter. *)
Definition finish (cleaned : str) : str :=
  let cleaned :=
    match cleaned with
    | [] => U "Paciente"
    | _ => if starts_with (U "paciente") (lower cleaned) ||
              existsb (fun p => starts_with (U p) (lower cleaned)) clinical_openings
           then cleaned else U "Paciente " ++ cleaned
    end in
  match cleaned with
  | c :: r => upper_c c :: r
  | [] => []
  end.

Definition _clean_description (description : str) (age : Z) (gender : str) : str :=
  let cleaned := description in
  let cleaned := step2 cleaned in
  let cleaned := step3 cleaned in
  let cleaned := step4 cleaned in
  let cleaned := step5 cleaned in
  let cleaned := steps678 cleaned in
  finish (tidy cleaned).

End CleanDescription.

(** [PatientDataCleaner._clean_existing_identification] *)
Module CleanIdentification.

(** [extracted_values]: a dict from field names to text. *)
Abbreviation values := (gmap str str).

Definition k_nome := U "nome".
Definition k_idade := U "idade".
Definition k_genero := U "genero".
Definition k_ocupacao := U "ocupacao".
Definition k_estado_civil := U "estado_civil".
Definition k_procedencia := U "procedencia".

(** The mapping of a legacy ["Key: value"] line. *)
Definition colon_line (ev : values) (line : str) : values :=
  if contains (U ":") line then
    match split1 line (U ":") with
    | [key; value] =>
        let key := lower (strip key) in
        let value := strip value in
        if contains (U "nome") key then <[k_nome := value]> ev
        else if contains (U "idade") key then <[k_idade := value]> ev
        else if contains (U "gênero") key || contains (U "genero") key then <[k_genero := value]> ev
        else if contains (U "ocupação") key || contains (U "ocupacao") key ||
                contains (U "profissão") key || contains (U "profissao") key
        then <[k_ocupacao := value]> ev
        else if contains (U "estado civil") key || contains (U "estado_civil") key
        then <[k_estado_civil := value]> ev
        else if contains (U "procedência") key || contains (U "procedencia") key ||
                contains (U "origem") key
        then <[k_procedencia := value]> ev
        else ev
    | _ => ev
    end
  else ev.

Definition marital_statuses : list str :=
  map U ["casado"; "casada"; "solteiro"; "solteira"; "divorciado"; "divorciada";
         "viúvo"; "viúva"; "separado"; "separada"].

Definition common_occupations : list str :=
  map U ["professor"; "professora"; "enfermeiro"; "enfermeira"; "comerciante";
         "motorista"; "funcionário"; "funcionária"; "aposentado"; "aposentada";
         "estudante"; "pedreiro"; "cozinheiro"; "cozinheira"; "médico"; "médica";
         "advogado"; "advogada"; "engenheiro"; "engenheira"; "contador"; "contadora"].

Definition origin_keywords : list string := ["área"; "zona"; "capital"; "urbana"; "rural"].

Fixpoint first_origin (ps : list str) : option str :=
  match ps with
  | [] => None
  | p :: r => if any_in origin_keywords (lower p) then Some p else first_origin r
  end.

(** The parse of one line of the comma-separated form
    ["Nome, idade, gênero, ocupação e estado_civil"]. *)
Definition comma_line (ev : values) (line : str) : values :=
  let parts := map strip (split line (U ",")) in
  if (4 <=? length parts)%nat then
    let ev := <[k_nome := nth 0 parts []]> ev in
    let ev := if contains (U "anos") (nth 1 parts []) then <[k_idade := nth 1 parts []]> ev else ev in
    let ev := <[k_genero := nth 2 parts []]> ev in
    let last_part := List.last parts [] in
    let ev :=
      if contains (U " e ") last_part then
        match split1 last_part (U " e ") with
        | [part1; part2] =>
            let part1_lower := lower (strip part1) in
            let part2_lower := lower (strip part2) in
            if mem part1_lower marital_statuses then
              let ev := <[k_estado_civil := strip part1]> ev in
              if any_in origin_keywords part2_lower then <[k_procedencia := strip part2]> ev else ev
            else if mem part1_lower common_occupations then
              <[k_estado_civil := strip part2]> (<[k_ocupacao := strip part1]> ev)
            else
              <[k_estado_civil := strip part2]> (<[k_ocupacao := strip part1]> ev)
        | _ => ev
        end
      else
        let last_part_lower := lower last_part in
        if mem last_part_lower marital_statuses then <[k_estado_civil := last_part]> ev
        else if mem last_part_lower common_occupations then <[k_ocupacao := last_part]> ev
        else <[k_ocupacao := last_part]> ev in
    if (4 <? length parts)%nat then
      match first_origin (firstn (length parts - 4) (skipn 3 parts)) with
      | Some p => <[k_procedencia := p]> ev
      | None => ev
      end
    else ev
  else ev.

Definition defaults : list (str * str) :=
  [(k_nome, U "Nome Desconhecido"); (k_idade, U "idade não informada");
   (k_genero, U "gênero não informado"); (k_ocupacao, U "ocupação não informada");
   (k_estado_civil, U "estado civil não informado")].

Definition default_of (k : str) : str :=
  match List.find (fun p => str_eqb (fst p) k) defaults with
  | Some (_, d) => d
  | None => []
  end.

Definition apply_defaults (ev : values) : values :=
  fold_left (fun ev '(k, d) =>
               match ev !! k with
               | Some (_ :: _) => ev
               | _ => <[k := d]> ev
               end) defaults ev.

Definition corrections (gender : str) : list (str * str) :=
  if str_eqb gender (U "masculino") then
    map (fun '(a, b) => (U a, U b))
      [("viúva", "Viúvo"); ("viuva", "Viúvo"); ("viúvo", "Viúvo"); ("viuvo", "Viúvo");
       ("casada", "Casado"); ("solteira", "Solteiro"); ("divorciada", "Divorciado")]
  else
    map (fun '(a, b) => (U a, U b))
      [("viúvo", "Viúva"); ("viuvo", "Viúva"); ("viúva", "Viúva"); ("viuva", "Viúva");
       ("casado", "Casada"); ("solteiro", "Solteira"); ("divorciado", "Divorciada")].

Definition occupation_corrections (gender : str) : list (str * str) :=
  if str_eqb gender (U "masculino") then
    map (fun '(a, b) => (U a, U b))
      [("professora", "Professor"); ("enfermeira", "Enfermeiro");
       ("funcionária", "Funcionário"); ("funcionaria", "Funcionário");
       ("funcionária pública", "Funcionário público");
       ("funcionaria publica", "Funcionário público"); ("aposentada", "Aposentado")]
  else
    map (fun '(a, b) => (U a, U b))
      [("professor", "Professora"); ("enfermeiro", "Enfermeira");
       ("funcionário", "Funcionária"); ("funcionario", "Funcionária");
       ("funcionário público", "Funcionária pública");
       ("funcionario publico", "Funcionária pública"); ("aposentado", "Aposentada")].

Definition lookup_or (ev : values) (k : str) : str :=
  match ev !! k with Some v => v | None => [] end.

Definition known_gender (g : str) : bool :=
  mem (lower g) [U "masculino"; U "feminino"].

(** The marital-status correction: the first key equal to the value. *)
Definition correct_marital (ev : values) : values :=
  if known_gender (lookup_or ev k_genero) then
    let gender := lower (lookup_or ev k_genero) in
    let marital_status := lower (lookup_or ev k_estado_civil) in
    match List.find (fun p => str_eqb (fst p) marital_status) (corrections gender) with
    | Some (_, v) => <[k_estado_civil := v]> ev
    | None => ev
    end
  else ev.

(** The occupation correction: the first key contained in the value. *)
Definition correct_occupation (ev : values) : values :=
  if known_gender (lookup_or ev k_genero) then
    let gender := lower (lookup_or ev k_genero) in
    let occupation := lower (lookup_or ev k_ocupacao) in
    match List.find (fun p => contains (fst p) occupation) (occupation_corrections gender) with
    | Some (_, v) => <[k_ocupacao := v]> ev
    | None => ev
    end
  else ev.

Definition order : list str :=
  [k_nome; k_idade; k_genero; k_ocupacao; k_estado_civil; k_procedencia].

Definition values_list (ev : values) : list str :=
  fold_right (fun key acc =>
                match ev !! key with
                | Some v => if str_eqb v (default_of key) then acc else v :: acc
                | None => acc
                end) [] order.

Definition render (vs : list str) : str :=
  match vs with
  | [] => []
  | [a] => a
  | [a; b] => a ++ U " e " ++ b
  | _ => join (U ", ") (removelast vs) ++ U " e " ++ List.last vs []
  end.

Definition _clean_existing_identification (info_text : str) : str :=
  match info_text with
  | [] => []
  | _ =>
      let lines := List.filter (fun l => match l with [] => false | _ => true end)
                          (map strip (split info_text (U "
"))) in
      let has_colon_format := existsb (contains (U ":")) lines in
      let ev := if has_colon_format then fold_left colon_line lines ∅
                else fold_left comma_line lines ∅ in
      let ev := apply_defaults ev in
      let ev := correct_marital ev in
      let ev := correct_occupation ev in
      render (values_list ev)
  end.

End CleanIdentification.

(** ** Effects: exceptions, the [random] module and the cleaner's mutable state *)
Module Eff.

Inductive exn : Type :=
| IndexError
| KeyError
| FileNotFoundError
| JSONDecodeError.

(** A JSON file on disk: a record of the station format, or bytes that do
    not parse. *)
Record info := { i_key : option str; i_informacao : option str }.

(** A station record.  [d_titulo] is [tituloEstacao]; [d_descricao] is
    [instrucoesParticipante.descricaoCasoCompleta], [None] when the
    object or the key is missing; [d_infos] is
    [materiaisDisponiveis.informacoesVerbaisSimulado], [None] when
    missing. *)
Record data := { d_titulo : option str; d_descricao : option str; d_infos : option (list info) }.

Inductive file := FJson (d : data) | FInvalid.

(** The state the cleaner threads: the draws of the random generator,
    [self.used_names], and the directory tree. *)
Record St := { st_rng : list nat; st_used : gmap str (gset str); st_fs : gmap str file }.

Definition M (A : Type) := St -> (exn + A) * St.

Definition ret {A} (a : A) : M A := fun s => (inr a, s).
Definition raise {A} (e : exn) : M A := fun s => (inl e, s).
Definition bind {A B} (c : M A) (k : A -> M B) : M B :=
  fun s => match c s with
           | (inr a, s') => k a s'
           | (inl e, s') => (inl e, s')
           end.

(** [try: c except Exception: h] *)
Definition catch {A} (c : M A) (h : exn -> M A) : M A :=
  fun s => match c s with
           | (inl e, s') => h e s'
           | r => r
           end.

(** One draw of the generator; an exhausted stream draws 0. *)
Definition draw : M nat :=
  fun s => match st_rng s with
           | n :: r => (inr n, {| st_rng := r; st_used := st_used s; st_fs := st_fs s |})
           | [] => (inr 0%nat, s)
           end.

Definition get_used : M (gmap str (gset str)) := fun s => (inr (st_used s), s).
Definition put_used (u : gmap str (gset str)) : M unit :=
  fun s => (inr tt, {| st_rng := st_rng s; st_used := u; st_fs := st_fs s |}).
Definition get_fs : M (gmap str file) := fun s => (inr (st_fs s), s).
Definition put_fs (fs : gmap str file) : M unit :=
  fun s => (inr tt, {| st_rng := st_rng s; st_used := st_used s; st_fs := fs |}).

End Eff.

Import Eff.
Notation "x <- c ;; k" := (Eff.bind c (fun x => k))
  (at level 100, c at next level, right associativity).
Notation "c ;;; k" := (Eff.bind c (fun _ => k)) (at level 100, right associativity).

(** [random.choice(l)]: [IndexError] on an empty list. *)
Definition choice (l : list str) : M str :=
  match l with
  | [] => raise IndexError
  | d :: _ => n <- draw ;; ret (nth (n mod length l) l d)
  end.

Definition choice_Z (l : list Z) : M Z :=
  match l with
  | [] => raise IndexError
  | d :: _ => n <- draw ;; ret (nth (n mod length l) l d)
  end.

(** [random.random() < p / 100]: the draw decides the comparison; the
    exact floating-point distribution is not modelled. *)
Definition random_lt (p : nat) : M bool :=
  n <- draw ;; ret (Nat.ltb (n mod 100) p).

(** ** The name registry: [_initialize_used_names_tracker],
    [_get_name_category], [_get_random_name] *)
Module Names.

(** An entry of [categorias]: [titulo] (absent as [None]) and [nomes]
    (absent read as [[]]). *)
Record category := { titulo : option str; nomes : list str }.

Definition _initialize_used_names_tracker (categorias : list category) : gmap str (gset str) :=
  fold_left (fun tr c => <[match titulo c with Some t => t | None => [] end := ∅]> tr)
            categorias ∅.

Definition _get_name_category (age : Z) (gender : str) : str :=
  let category_type :=
    if (age <? 15)%Z then U "recém-nascidos, crianças e pré-adolescentes"
    else if (age <=? 40)%Z then U "Jovens e Adolescentes"
    else U "Meia-Idade e Idosos" in
  let gender_prefix := if str_eqb (lower gender) (U "masculino") then U "Masculinos" else U "Femininos" in
  U "Nomes " ++ gender_prefix ++ U " Mais Comuns (" ++ category_type ++ U ")".

(** [category in self.names_data.get('categorias', [])]: [category] is a
    [str] and the list holds dicts, and a [str] never equals a dict. *)
Definition str_eq_dict (s : str) (c : category) : bool := false.

Definition in_categorias (s : str) (categorias : list category) : bool :=
  existsb (str_eq_dict s) categorias.

Definition fallback_male := U "Nomes Masculinos Mais Comuns (Meia-Idade e Idosos)".
Definition fallback_female := U "Nomes Femininos Mais Comuns (Meia-Idade e Idosas)".

(** The category [_get_random_name] looks up after its first test. *)
Definition target_category (categorias : list category) (category : str) : str :=
  if negb (in_categorias category categorias) then
    if contains (U "Masculinos") category then fallback_male else fallback_female
  else category.

Definition find_category (categorias : list category) (t : str) : option category :=
  List.find (fun c => match titulo c with Some t' => str_eqb t' t | None => false end) categorias.

(** [self.used_names[category]] *)
Definition used_of (category : str) : M (gset str) :=
  u <- get_used ;;
  match u !! category with
  | Some s => ret s
  | None => raise KeyError
  end.

Definition _get_random_name (categorias : list category) (category : str) : M str :=
  let category := target_category categorias category in
  match find_category categorias category with
  | None => ret (U "Nome Desconhecido")
  | Some category_data =>
      let all_names := nomes category_data in
      available_names <-
        (match all_names with
         | [] => ret []
         | _ => used <- used_of category ;;
                ret (List.filter (fun n => if decide (n ∈ used) then false else true) all_names)
         end) ;;
      available_names <-
        (match available_names with
         | [] => _ <- used_of category ;;
                 u <- get_used ;;
                 put_used (<[category := ∅]> u) ;;;
                 ret all_names
         | _ => ret available_names
         end) ;;
      selected_name <- choice available_names ;;
      used <- used_of category ;;
      u <- get_used ;;
      put_used (<[category := {[selected_name]} ∪ used]> u) ;;;
      ret selected_name
  end.

End Names.

(** ** The synthesizer: [_infer_age_from_context], [_infer_occupation],
    [_infer_marital_status], [_infer_origin], [_is_lgbt_relevant_theme],
    [_create_identification_field] *)
Module Infer.

(** A context dict [{'tituloEstacao': ...}] is given by its title entry
    ([None] when the key is absent). *)
Definition disease_of (context : option str) : str :=
  lower (match context with Some t => t | None => [] end).

Definition has (k : string) (s : str) : bool := contains (U k) s.

Definition _infer_age_from_context (context : option str) (gender : str) : M Z :=
  let disease := disease_of context in
  if has "cetoacidose diabética" disease || has "diabetes" disease then
    choice_Z [25; 35; 45; 65; 75]%Z
  else if has "cistite" disease || has "itu" disease then
    if str_eqb gender (U "feminino") then choice_Z [22; 28; 35; 42; 55]%Z
    else choice_Z [45; 55; 65; 70]%Z
  else if has "cardiopatia chagásica" disease || has "chagas" disease then
    choice_Z [45; 50; 55; 60; 65]%Z
  else if has "avc" disease || has "acidente vascular" disease then
    choice_Z [60; 65; 70; 75; 80]%Z
  else if has "infarto" disease || has "angina" disease then
    if str_eqb gender (U "masculino") then choice_Z [50; 55; 60; 65; 70]%Z
    else choice_Z [55; 60; 65; 70; 75]%Z
  else if str_eqb gender (U "feminino") then choice_Z [25; 35; 45; 55; 65]%Z
  else choice_Z [30; 40; 50; 60; 70]%Z.

Definition is_m (gender : str) : bool := str_eqb (lower gender) (U "masculino").
Definition is_f (gender : str) : bool := str_eqb (lower gender) (U "feminino").

Definition pick (b : bool) (x y : string) : M str := ret (if b then U x else U y).

Definition _infer_occupation (age : Z) (context : option str) (gender : str) : M str :=
  let disease := disease_of context in
  if has "chagas" disease || has "chagásica" disease then
    pick (is_m gender) "Trabalhador rural" "Trabalhadora rural"
  else if has "diabetes" disease || has "cetoacidose" disease then
    if (age >? 60)%Z then pick (is_m gender) "Aposentado" "Aposentada"
    else if (age >? 25)%Z then pick (is_m gender) "Profissional liberal" "Profissional liberal"
    else pick (is_m gender) "Estudante" "Estudante"
  else if has "cistite" disease || has "itu" disease then
    if (age >? 60)%Z then pick (is_f gender) "Aposentada" "Aposentado"
    else if (age >? 25)%Z then pick (is_f gender) "Profissional de escritório" "Profissional de escritório"
    else pick (is_f gender) "Estudante" "Estudante"
  else if (age >? 65)%Z then pick (is_m gender) "Aposentado" "Aposentada"
  else if (age >? 25)%Z then
    if is_m gender then
      choice (map U ["Professor"; "Enfermeiro"; "Comerciante"; "Motorista"; "Funcionário público"])
    else
      choice (map U ["Professora"; "Enfermeira"; "Comerciante"; "Motorista"; "Funcionária pública"])
  else if (age >? 18)%Z then pick (is_m gender) "Estudante universitário" "Estudante universitária"
  else pick (is_m gender) "Estudante" "Estudante".

Definition _infer_marital_status (age : Z) (gender : str) : M str :=
  if (age <? 25)%Z then pick (is_m gender) "Solteiro" "Solteira"
  else if (age <? 60)%Z then
    if is_m gender then choice (map U ["Casado"; "Solteiro"; "Divorciado"])
    else choice (map U ["Casada"; "Solteira"; "Divorciada"])
  else if is_m gender then choice (map U ["Casado"; "Viúvo"])
  else choice (map U ["Casada"; "Viúva"]).

Definition _infer_origin (context : option str) : option str :=
  let disease := disease_of context in
  if has "chagas" disease || has "chagásica" disease then Some (U "Área rural de Minas Gerais")
  else if has "dengue" disease || has "chikungunya" disease || has "zika" disease then
    Some (U "Área urbana periférica")
  else None.

Definition lgbt_keywords : list string :=
  ["homossexual"; "lésbica"; "gay"; "lgbt"; "trans"; "transexual";
   "identidade de gênero"; "orientação sexual"; "dst"; "aids"; "hiv";
   "gonorreia"; "sífilis"; "herpes genital"; "condiloma"; "hpv"].

Definition _is_lgbt_relevant_theme (context : option str) : bool :=
  any_in lgbt_keywords (disease_of context).

(** [str.capitalize]: first character upper-cased, the rest lower-cased. *)
Definition capitalize (s : str) : str :=
  match s with
  | c :: r => upper_c c :: lower r
  | [] => []
  end.

Definition IDENT := U "IDENTIFICAÇÃO DO PACIENTE".

(** The argument [context : Optional[Dict]]: [None], or a dict given by
    its title entry.  An empty dict is falsy, but it has no title and
    [_is_lgbt_relevant_theme] is false on it as well. *)
Definition info_lines (name : str) (age : Z) (gender occupation marital_status : str)
           (origin : option str) (context : option (option str)) : list str :=
  [U "Nome: " ++ name; U "Idade: " ++ show_Z age ++ U " anos"] ++
  (match context with
   | Some c => if _is_lgbt_relevant_theme c then [U "Gênero: " ++ capitalize gender] else []
   | None => []
   end) ++
  [U "Ocupação: " ++ occupation; U "Estado Civil: " ++ marital_status] ++
  (match origin with
   | Some ((_ :: _) as o) => [U "Procedência: " ++ o]
   | _ => []
   end).

Definition _create_identification_field (name : str) (age : Z) (gender occupation marital_status : str)
           (origin : option str) (context : option (option str)) : info :=
  {| i_key := Some IDENT;
     i_informacao := Some (join (U "
") (info_lines name age gender occupation marital_status origin context)) |}.

End Infer.

(** [PatientDataCleaner._extract_age_gender_from_description] *)
Module Extract.
Import Infer.

Definition age_patterns : list string :=
  ["(\d+)\s*anos?"; "idade\s*de\s*(\d+)"; "paciente\s+de\s*(\d+)\s*anos?";
   "Paciente\s+de\s*(\d+)\s*anos?"; "(\d+)\s*anos?\s*de\s*idade";
   "idos[ao]\s+de\s*(\d+)\s*anos?"; "com\s*(\d+)\s*anos"; "aos?\s*(\d+)\s*anos?";
   "(\d+)\s*anos?\s*chega"; "(\d+)\s*anos?\s*comparece"; "(\d+)\s*anos?\s*procura";
   "(\d+)\s*anos?\s*apresenta"; "(\d+)\s*anos?\s*referindo";
   "idoso\s*\(a\)"; "idoso\(a\)";
   "Dona?\s+[A-Z][a-z]+\s+[A-Z][a-z]+,\s*(\d+)\s*anos?";
   "Paciente\s+[A-Z][a-z]+\s+[A-Z][a-z]+,\s*(\d+)\s*anos?";
   "[A-Z][a-z]+\s+[A-Z][a-z]+,\s*(\d+)\s*anos?"; "(\d+)\s*anos?\s*,";
   "paciente\s*,\s*\w+,\s*(\d+)\s*anos?"; "(\d+)\s*anos?\s*de\s*idade\s*,";
   "idos[ao]\s*\(a\)\s*,?\s*(\d+)\s*anos?";
   "paciente\s*ã[a-z]+\s+[A-Z][a-z]+,\s*(\d+)\s*anos?";
   "ã[a-z]+\s+[A-Z][a-z]+,\s*(\d+)\s*anos?"].

(** The age loop; [int(group(1))] cannot fail, group 1 is always [\d+]. *)
Fixpoint age_loop (pats : list string) (description : str) : M (option Z) :=
  match pats with
  | [] => ret None
  | p :: r =>
      let pat := re_compile p Re.IGNORECASE in
      match Re.re_search pat description with
      | None => age_loop r description
      | Some mo =>
          match (if Nat.ltb 0 (Re.ngroups pat) then Re.group description (Re.mcaps mo) 1 else None) with
          | Some ((_ :: _) as g) => ret (Some (read_Z g))
          | _ =>
              if has "idoso" (lower (U p)) then
                a <- choice_Z [65; 70; 75; 80; 85]%Z ;; ret (Some a)
              else age_loop r description
          end
      end
  end.

Definition gender_patterns : list string :=
  ["sexo\s+(masculino|feminino)"; "gênero\s+(masculino|feminino)";
   "paciente\s+(masculino|feminino)"; "paciente\s+(feminina|masculino)";
   "é\s+trazido"; "é\s+trazida"; "(\w+)\s+é\s+trazid[ao]"; "(\w+)\s+procura";
   "(\w+)\s+apresenta"; "uma\s+paciente"; "um\s+paciente"; "paciente\s+feminina";
   "paciente\s+masculino"; "A\s+paciente"; "O\s+paciente";
   "Dona?\s+[A-Z][a-z]+\s+[A-Z][a-z]+"; "Dr\.?\s+[A-Z][a-z]+\s+[A-Z][a-z]+";
   "Sr\.?\s+[A-Z][a-z]+\s+[A-Z][a-z]+"; "Sra\.?\s+[A-Z][a-z]+\s+[A-Z][a-z]+";
   "chega\s+à"; "comparece\s+à"; "paciente\s*,\s*\w+,\s*chega";
   "paciente\s*,\s*\w+,\s*comparece"; "acompanhad[ao]\s+da\s+acompanhante";
   "acompanhad[ao]\s+do\s+acompanhante"; "pai\s+tem"; "mãe\s+tem"; "filho\s+tem";
   "filha\s+tem"].

Definition masc := U "masculino".
Definition fem := U "feminino".

(** The gender loop stops at the first pattern that matches. *)
Definition gender_loop (description : str) : option str :=
  match CleanDescription.first_search gender_patterns Re.IGNORECASE description with
  | None => None
  | Some (p, mo) =>
      let matched_text := lower (Re.group0 description mo) in
      if has "é trazido" matched_text then Some masc
      else if has "é trazida" matched_text then Some fem
      else if has "uma paciente" matched_text then Some fem
      else if has "um paciente" matched_text then Some masc
      else if starts_with (U "a paciente") matched_text then Some fem
      else if starts_with (U "o paciente") matched_text then Some masc
      else if starts_with (U "dona") matched_text || starts_with (U "sra") matched_text then Some fem
      else if starts_with (U "dr") matched_text || starts_with (U "sr") matched_text then Some masc
      else
        let pat := re_compile p Re.IGNORECASE in
        let gender_text :=
          if Nat.ltb 0 (Re.ngroups pat) then
            match Re.group description (Re.mcaps mo) 1 with
            | Some ((_ :: _) as g) => lower g
            | _ => matched_text
            end
          else matched_text in
        if has "femin" gender_text || has "mulher" gender_text ||
           has "ela" gender_text || has "uma paciente" gender_text then Some fem
        else if has "mascul" gender_text || has "homem" gender_text ||
                has "ele" gender_text || has "um paciente" gender_text then Some masc
        else None
  end.

Definition context_pass1 (desc_lower : str) : option str :=
  if has "paciente feminina" desc_lower || has "mulher" desc_lower || has "dona" desc_lower ||
     has "sra" desc_lower || has "mãe tem" desc_lower || has "filha tem" desc_lower ||
     has "acompanhada do acompanhante" desc_lower then Some fem
  else if has "paciente masculino" desc_lower || has "homem" desc_lower || has "sr" desc_lower ||
          has "dr" desc_lower || has "pai tem" desc_lower || has "filho tem" desc_lower ||
          has "acompanhado da acompanhante" desc_lower then Some masc
  else if has "a paciente" desc_lower then Some fem
  else if has "o paciente" desc_lower then Some masc
  else None.

Definition context_pass2 (desc_lower : str) : option str :=
  if has "paciente feminina" desc_lower || has "mulher" desc_lower ||
     has "mãe" desc_lower || has "filha" desc_lower then Some fem
  else if has "paciente masculino" desc_lower || has "homem" desc_lower ||
          has "pai" desc_lower || has "filho" desc_lower then Some masc
  else None.

Definition _extract_age_gender_from_description (description : str) : M (option Z * option str) :=
  age <- age_loop age_patterns description ;;
  let gender := gender_loop description in
  let gender := match gender with Some _ => gender | None => context_pass1 (lower description) end in
  let gender := match gender with Some _ => gender | None => context_pass2 (lower description) end in
  ret (age, gender).

End Extract.

(** [PatientDataCleaner._check_duplicate_identification] and
    [PatientDataCleaner._is_file_already_correct] *)
Module Checks.

Definition info_array (d : data) : list info :=
  match d_infos d with Some l => l | None => [] end.

Definition is_ident (i : info) : bool :=
  match i_key i with Some k => str_eqb k Infer.IDENT | None => false end.

Definition _check_duplicate_identification (d : data) : bool * nat :=
  let identification_count := length (List.filter is_ident (info_array d)) in
  (Nat.ltb 1 identification_count, identification_count).

Definition filiation_patterns : list string :=
  ["[A-Z][a-z]+\s+[A-Z][a-z]+"; "\d+\s*anos?"; "sexo\s+(masculino|feminino)";
   "gênero\s+(masculino|feminino)"; "profissão"; "ocupação"; "estado\s+civil";
   "procedência"; "origem"].

Definition _is_file_already_correct (d : data) : bool * str :=
  match d_descricao d with
  | None => (false, U "Arquivo sem estrutura completa")
  | Some description =>
      match CleanDescription.first_search filiation_patterns Re.IGNORECASE description with
      | Some (p, _) => (false, U "Arquivo contém dados filiatórios: " ++ U p)
      | None => (true, U "Arquivo já está correto")
      end
  end.

End Checks.

(** [PatientDataCleaner.process_file] *)
Module Process.
Import Infer Checks.

Definition title_of (d : data) : str :=
  match d_titulo d with Some t => t | None => [] end.

(** [str(e)] for the exceptions raised in the model.  The texts are
    representative only: Python's messages carry details such as the path
    of a missing file, so nothing is proved about a handler message beyond
    its fixed prefix [Erro ao processar arquivo: ]. *)
Definition exn_str (e : exn) : str :=
  match e with
  | IndexError => U "Cannot choose from an empty sequence"
  | KeyError => U "KeyError"
  | FileNotFoundError => U "No such file or directory"
  | JSONDecodeError => U "Expecting value"
  end.

(** The sex-ratio rules (the two copies in the source are identical). *)
Definition infer_gender (disease : str) : M str :=
  let by_ratio p first other := (b <- random_lt p ;; ret (if b then U first else U other)) in
  if has "cistite" disease || has "itu" disease then by_ratio 85%nat "feminino" "masculino"
  else if has "câncer de mama" disease || has "mastite" disease then ret Extract.fem
  else if has "câncer de próstata" disease || has "hiperplasia prostática" disease then ret Extract.masc
  else if has "gravidez" disease || has "parto" disease || has "puerpério" disease then ret Extract.fem
  else if has "câncer cervical" disease || has "câncer de colo uterino" disease then ret Extract.fem
  else if has "endometriose" disease || has "mioma" disease then ret Extract.fem
  else if has "câncer de ovário" disease || has "câncer de endométrio" disease then ret Extract.fem
  else if has "menopausa" disease || has "osteoporose" disease then by_ratio 80%nat "feminino" "masculino"
  else if has "avc" disease || has "acidente vascular" disease then by_ratio 55%nat "masculino" "feminino"
  else if has "infarto" disease || has "angina" disease then by_ratio 70%nat "masculino" "feminino"
  else if has "diabetes" disease || has "cetoacidose" disease then by_ratio 50%nat "masculino" "feminino"
  else by_ratio 52%nat "feminino" "masculino".

(** Python truthiness of [age: Optional[int]] and [gender: Optional[str]]. *)
Definition age_truthy (a : option Z) : bool :=
  match a with Some z => negb (Z.eqb z 0) | None => false end.
Definition gender_truthy (g : option str) : bool :=
  match g with Some (_ :: _) => true | _ => false end.

(** The fallback of [process_file] for a missing age or gender. *)
Definition resolve (title : str) (age : option Z) (gender : option str) : M (option Z * option str) :=
  ag <-
    (if negb (age_truthy age) then
       if gender_truthy gender then
         a <- _infer_age_from_context (Some title) (match gender with Some g => g | None => [] end) ;;
         ret (Some a, gender)
       else
         g <- infer_gender (lower title) ;;
         a <- _infer_age_from_context (Some title) g ;;
         ret (Some a, Some g)
     else ret (age, gender)) ;;
  let '(age, gender) := ag in
  if age_truthy age && negb (gender_truthy gender) then
    g <- infer_gender (lower title) ;; ret (age, Some g)
  else ret (age, gender).

(** The rewrite of the first [IDENTIFICAÇÃO DO PACIENTE] entry. *)
Fixpoint update_first_ident (l : list info) : list info :=
  match l with
  | [] => []
  | i :: r =>
      if is_ident i then
        let original_info := match i_informacao i with Some t => t | None => [] end in
        let cleaned_info := CleanIdentification._clean_existing_identification original_info in
        match cleaned_info with
        | [] => i :: r
        | _ => {| i_key := i_key i; i_informacao := Some cleaned_info |} :: r
        end
      else i :: update_first_ident r
  end.

Definition with_infos (d : data) (l : option (list info)) : data :=
  {| d_titulo := d_titulo d; d_descricao := d_descricao d; d_infos := l |}.
Definition with_descricao (d : data) (s : str) : data :=
  {| d_titulo := d_titulo d; d_descricao := Some s; d_infos := d_infos d |}.

Definition msg_duplicates (n : nat) : str :=
  U "Arquivo contém " ++ show_Z (Z.of_nat n) ++
  U " campos 'IDENTIFICAÇÃO DO PACIENTE' (duplicatas detectadas)".

Definition msg_extraction (description : str) : str :=
  U "Não foi possível extrair idade ou gênero da descrição: " ++ firstn 100 description ++ U "...".

(** The [try] block of [process_file].  The save is modelled as one
    complete write of the new record at [file_path] in a map from paths to
    contents: a write that fails after [open(file_path, 'w')] has
    truncated the file, and paths that are links to one another, are not
    modelled. *)
Definition body (categorias : list Names.category) (file_path : str) : M (bool * str) :=
  fs <- get_fs ;;
  match fs !! file_path with
  | None => raise FileNotFoundError
  | Some FInvalid => raise JSONDecodeError
  | Some (FJson data) =>
      let '(has_duplicates, identification_count) := _check_duplicate_identification data in
      if has_duplicates then ret (false, msg_duplicates identification_count) else
      let has_identification := Nat.ltb 0 identification_count in
      let '(is_correct, correct_message) := _is_file_already_correct data in
      if negb has_identification && is_correct then
        ret (false, U "Arquivo já está correto: " ++ correct_message) else
      match d_descricao data with
      | None => ret (false, U "Arquivo não tem estrutura completa (falta instrucoesParticipante ou descricaoCasoCompleta)")
      | Some description =>
          let data := if has_identification
                      then match d_infos data with
                           | Some l => with_infos data (Some (update_first_ident l))
                           | None => data
                           end
                      else data in
          let title := title_of data in
          ag <- Extract._extract_age_gender_from_description description ;;
          let '(age, gender) := ag in
          ag <- resolve title age gender ;;
          let '(age, gender) := ag in
          if negb (age_truthy age) || negb (gender_truthy gender) then
            ret (false, msg_extraction description) else
          let age := match age with Some a => a | None => 0%Z end in
          let gender := match gender with Some g => g | None => [] end in
          name <- Names._get_random_name categorias (Names._get_name_category age gender) ;;
          occupation <- _infer_occupation age (Some title) gender ;;
          marital_status <- _infer_marital_status age gender ;;
          let origin := _infer_origin (Some title) in
          let context := Some title in
          let identification_field :=
            _create_identification_field name age gender occupation marital_status origin (Some context) in
          let data := if negb has_identification
                      then with_infos data (Some (identification_field ::
                             match d_infos data with Some l => l | None => [] end))
                      else data in
          let cleaned_description := CleanDescription._clean_description description age gender in
          let data := with_descricao data cleaned_description in
          fs <- get_fs ;;
          put_fs (<[file_path := FJson data]> fs) ;;;
          let gender_info := if _is_lgbt_relevant_theme context then U "com gênero" else U "sem gênero" in
          if has_identification then
            ret (true, U "Arquivo atualizado com sucesso. Correções de gênero aplicadas (" ++ gender_info ++ U ")")
          else
            ret (true, U "Arquivo processado com sucesso. Nome: " ++ name ++ U ", Idade: " ++ show_Z age ++
                       U ", Gênero: " ++ gender ++ U " (" ++ gender_info ++ U ")")
      end
  end.

Definition process_file (categorias : list Names.category) (file_path : str) : M (bool * str) :=
  catch (body categorias file_path)
        (fun e => ret (false, U "Erro ao processar arquivo: " ++ exn_str e)).

(** The classification of a result message by [generate_report]. *)
Definition counted_success (msg : str) : bool := has "sucesso" (lower msg).
Definition counted_correct (msg : str) : bool := has "já está correto" (lower msg).
Definition counted_duplicate (msg : str) : bool := has "duplicatas detectadas" (lower msg).
Definition listed_as_error (msg : str) : bool :=
  negb (counted_success msg || counted_correct msg || counted_duplicate msg).


(** The statistics of [generate_report]: [len(results)], the three keyword
    counts over [results.values()], and [error_files] as the difference. *)
Definition report_counts (results : gmap str str) : Z * Z * Z * Z * Z :=
  let msgs := map snd (map_to_list results) in
  let total_files := Z.of_nat (size results) in
  let successful_files := Z.of_nat (length (List.filter counted_success msgs)) in
  let correct_files := Z.of_nat (length (List.filter counted_correct msgs)) in
  let duplicate_files := Z.of_nat (length (List.filter counted_duplicate msgs)) in
  let error_files := (total_files - successful_files - correct_files - duplicate_files)%Z in
  (total_files, successful_files, correct_files, duplicate_files, error_files).

End Process.

(** ** Vocabulary of the properties *)
Module Props.
Import CleanDescription CleanIdentification.

(** The grammatical gender of the Portuguese occupation and marital
    words the cleaner writes or reads ([Common] for the words that do
    not inflect). *)
Inductive ggender := Masc | Fem | Common.

Definition lexicon : list (string * ggender) :=
  [("trabalhador rural", Masc); ("trabalhadora rural", Fem);
   ("aposentado", Masc); ("aposentada", Fem);
   ("professor", Masc); ("professora", Fem);
   ("enfermeiro", Masc); ("enfermeira", Fem);
   ("funcionário", Masc); ("funcionária", Fem);
   ("funcionário público", Masc); ("funcionária pública", Fem);
   ("estudante universitário", Masc); ("estudante universitária", Fem);
   ("médico", Masc); ("médica", Fem);
   ("solteiro", Masc); ("solteira", Fem);
   ("casado", Masc); ("casada", Fem);
   ("divorciado", Masc); ("divorciada", Fem);
   ("viúvo", Masc); ("viúva", Fem);
   ("separado", Masc); ("separada", Fem);
   ("profissional liberal", Common); ("profissional de escritório", Common);
   ("estudante", Common); ("comerciante", Common); ("motorista", Common)].

Definition grammatical_gender (w : str) : option ggender :=
  match List.find (fun p => str_eqb (U (fst p)) (lower w)) lexicon with
  | Some (_, g) => Some g
  | None => None
  end.

(** A word agrees with a patient gender ([masculino] or [feminino]) when
    it is a known word of that gender or of both. *)
Definition agrees (gender w : str) : bool :=
  match grammatical_gender w with
  | Some Common => true
  | Some Masc => str_eqb gender (U "masculino")
  | Some Fem => str_eqb gender (U "feminino")
  | None => false
  end.

(** Equality up to whitespace and letter case: all whitespace dropped,
    all letters lowered. *)
Definition canon (s : str) : str := lower (List.filter (fun c => negb (is_space c)) s).

Definition no_match (fl : Re.flags) (s : str) (p : string) : bool :=
  match Re.re_search (re_compile p fl) s with None => true | Some _ => false end.

(** None of the patterns of steps 2 to 8 of [_clean_description] occurs
    in [s], each with the flags the step uses. *)
Definition no_scrub_pattern (s : str) : bool :=
  forallb (no_match Re.IGNORECASE_MULTILINE s) filiation_start_patterns &&
  forallb (no_match Re.IGNORECASE s)
          (patient_name_patterns ++ start_name_patterns ++ age_patterns ++
           age_gender_patterns ++ occupation_patterns ++ marital_patterns ++
           origin_patterns ++ map fst context_replacements) &&
  forallb (no_match Re.NOFLAGS s) remaining_name_patterns.

(** [s] starts with the word [w]: the prefix is not followed by a letter
    or digit. *)
Definition starts_with_word (w s : str) : bool :=
  starts_with w s &&
  match drop (length w) s with c :: _ => negb (is_word c) | [] => true end.

(** [n] successive calls of [_get_random_name] on the same category; the
    names in draw order. *)
Fixpoint draws (categorias : list Names.category) (category : str) (n : nat) : M (list str) :=
  match n with
  | O => ret []
  | S k => x <- Names._get_random_name categorias category ;;
           l <- draws categorias category k ;;
           ret (x :: l)
  end.

(** The number of distinct names of a category. *)
Definition pool_size (cd : Names.category) : nat :=
  size (list_to_set (Names.nomes cd) : gset str).

(** The tracker holds a key for every title of the database, as
    [_initialize_used_names_tracker] builds it. *)
Definition tracker_covers (categorias : list Names.category) (u : gmap str (gset str)) : Prop :=
  forall cd t, In cd categorias -> Names.titulo cd = Some t -> is_Some (u !! t).

(** The opening test at the end of step 9 of [_clean_description]. *)
Definition opening_ok (s : str) : bool :=
  starts_with (U "paciente") s || existsb (fun p => starts_with (U p) s) clinical_openings.


(** A computation that leaves the file system as it found it. *)
Definition fs_pure {A} (c : M A) : Prop := forall s, st_fs (snd (c s)) = st_fs s.

(** The genders the extraction can return. *)
Definition gsp (g : option str) : Prop := g = None \/ g = Some Extract.masc \/ g = Some Extract.fem.

(** What a successful [process_file] writes: record [d'] replacing [d]. *)
Definition written_ok (d d' : data) : Prop :=
  d_titulo d' = d_titulo d /\
  Checks._check_duplicate_identification d' = (false, 1%nat) /\
  List.filter (fun i => negb (Checks.is_ident i)) (Checks.info_array d') =
    List.filter (fun i => negb (Checks.is_ident i)) (Checks.info_array d) /\
  exists desc a g, d_descricao d = Some desc /\
    d_descricao d' = Some (CleanDescription._clean_description desc a g) /\
    (0 < a)%Z /\ (g = U "masculino" \/ g = U "feminino").

(** The number of the three report keywords a message contains. *)
Definition keyword_count (msg : str) : nat :=
  (Nat.b2n (Process.counted_success msg) + Nat.b2n (Process.counted_correct msg) +
   Nat.b2n (Process.counted_duplicate msg))%nat.

(** The tracker key of a category: [category.get('titulo', '')]. *)
Definition title_key (c : Names.category) : str :=
  match Names.titulo c with Some t => t | None => [] end.

(** A string without a newline, as a boolean test. *)
Definition nlfree (s : str) : bool := negb (existsb (N.eqb 10) s).

(** A field map none of whose values contains a newline. *)
Definition nl_free_map (ev : CleanIdentification.values) : Prop := map_Forall (fun _ v => ~ In 10 v) ev.

End Props.

(** ** Concrete inputs *)
Module Examples.

(** An identification block of the legacy ["Key: value"] form. *)
Definition colon_block : str :=
  U "Nome: João Santos
Idade: 70 anos
Ocupação: Aposentado
Estado Civil: Viúvo".

(** A name database with a child category and the male fallback. *)
Definition child_male := U "Nomes Masculinos Mais Comuns (recém-nascidos, crianças e pré-adolescentes)".

Definition db_child : list Names.category :=
  [{| Names.titulo := Some child_male; Names.nomes := [U "Pedro"] |};
   {| Names.titulo := Some Names.fallback_male; Names.nomes := [U "José"] |}].

(** A database without the fallback titles, and one whose male fallback
    has no names. *)
Definition db_no_fallback : list Names.category :=
  [{| Names.titulo := Some child_male; Names.nomes := [U "Pedro"] |}].

Definition db_empty_fallback : list Names.category :=
  [{| Names.titulo := Some Names.fallback_male; Names.nomes := [] |};
   {| Names.titulo := Some Names.fallback_female; Names.nomes := [U "Maria"] |}].

Definition db_pool : list Names.category :=
  [{| Names.titulo := Some Names.fallback_male; Names.nomes := [U "José"; U "Antônio"; U "José"] |}].

(** The state after [__init__]: fresh tracker, no files. *)
Definition init (db : list Names.category) (rng : list nat) : St :=
  {| st_rng := rng; st_used := Names._initialize_used_names_tracker db; st_fs := ∅ |}.

Definition dup_record : data :=
  {| d_titulo := Some (U "Cistite");
     d_descricao := Some (U "Maria Silva, 34 anos, chega com disúria");
     d_infos := Some [Infer._create_identification_field (U "Ana") 34 (U "feminino")
                        (U "Professora") (U "Casada") None (Some (Some (U "Cistite")));
                      Infer._create_identification_field (U "Rosa") 30 (U "feminino")
                        (U "Estudante") (U "Solteira") None (Some (Some (U "Cistite")))] |}.

Definition with_file (path : str) (d : data) : St :=
  {| st_rng := [3; 1; 4]%nat; st_used := Names._initialize_used_names_tracker db_child;
     st_fs := {[ path := FJson d ]} |}.

(** A record with a narrative and no identification entry. *)
Definition plain_record : data :=
  {| d_titulo := Some (U "Lombalgia"); d_descricao := Some (U "Dor lombar há duas semanas.");
     d_infos := None |}.


(** A report with one success and one error message. *)
Definition report_example : gmap str str :=
  <[U "casos/a.json" := U "Arquivo processado com sucesso. Nome: Ana, Idade: 34, Gênero: feminino (sem gênero)"]>
  (<[U "casos/b.json" := U "Erro ao processar arquivo: Expecting value"]> ∅).

End Examples.

(** * Properties *)
Module Theorems.
Import CleanDescription CleanIdentification Names Infer Props Examples Process.

(** ** Concrete runs *)

(** C1 (idempotence of the identification normalizer fails).  The legacy
    block [colon_block] normalizes to the comma sentence
    "João Santos, 70 anos, Aposentado e Viúvo"; normalizing this output
    again gives the empty string instead of the sentence (a comma line
    with fewer than four parts is not parsed, every field falls back to
    its default, and defaults are dropped from the rendering). *)
Theorem c1_normalized_block_not_fixed :
  _clean_existing_identification colon_block = U "João Santos, 70 anos, Aposentado e Viúvo" /\
  _clean_existing_identification (U "João Santos, 70 anos, Aposentado e Viúvo") = [].
Proof. split; vm_compute; reflexivity. Qed.

(** C2 (counterexample).  The one-word description "Dor." is accepted by
    [_is_file_already_correct] and matches none of the patterns of steps
    2 to 8, yet the scrubber returns "Paciente Dor.", which differs from
    "Dor." even after dropping all whitespace and lowering all letters. *)
Lemma c2_clean_text_is_rewritten :
  Checks._is_file_already_correct
    {| d_titulo := None; d_descricao := Some (U "Dor."); d_infos := None |} =
    (true, U "Arquivo já está correto") /\
  no_scrub_pattern (U "Dor.") = true /\
  _clean_description (U "Dor.") 34 (U "feminino") = U "Paciente Dor." /\
  canon (_clean_description (U "Dor.") 34 (U "feminino")) <> canon (U "Dor.").
Proof.
  split; [vm_compute; reflexivity |].
  split; [vm_compute; reflexivity |].
  split; [vm_compute; reflexivity |].
  intro H; vm_compute in H; discriminate H.
Qed.

(** C3 (counterexample).  With gender [masculino], the block
    "João Santos, 70 anos, masculino, Médica e separada" is returned
    unchanged: the feminine occupation "Médica" and the feminine marital
    status "separada" are outside the correction tables. *)
Lemma c3_correction_keeps_feminine_words :
  _clean_existing_identification (U "João Santos, 70 anos, masculino, Médica e separada") =
    U "João Santos, 70 anos, masculino, Médica e separada" /\
  agrees (U "masculino") (U "Médica") = false /\
  agrees (U "masculino") (U "separada") = false.
Proof. split; [| split]; vm_compute; reflexivity. Qed.

(** C8 (counterexample).  The description "Pacientemente aguarda." comes
    out unchanged: it does not start with the word "Paciente" (the test
    is a prefix test) nor with a clinical opening. *)
Lemma c8_prefix_not_word :
  _clean_description (U "Pacientemente aguarda.") 34 (U "feminino") = U "Pacientemente aguarda." /\
  starts_with_word (U "Paciente") (U "Pacientemente aguarda.") = false /\
  existsb (fun p => starts_with (U p) (lower (U "Pacientemente aguarda."))) clinical_openings = false.
Proof. split; [| split]; vm_compute; reflexivity. Qed.

(** C10 (counterexample).  Without the fallback titles in the database,
    [_get_random_name] raises nothing: it returns "Nome Desconhecido"
    and leaves the state alone.  With both fallback titles present but
    an empty male fallback, it raises [IndexError]. *)
Lemma c10_keyerror_claim_fails :
  _get_random_name db_no_fallback child_male (init db_no_fallback [0%nat]) =
    (inr (U "Nome Desconhecido"), init db_no_fallback [0%nat]) /\
  fst (_get_random_name db_empty_fallback child_male (init db_empty_fallback [0%nat])) =
    inl IndexError.
Proof. split; vm_compute; reflexivity. Qed.

(** ** The name registry *)

Lemma in_categorias_false s db : in_categorias s db = false.
Proof. unfold in_categorias, str_eq_dict. induction db; simpl; auto. Qed.

Lemma target_category_fallback db c :
  target_category db c = if contains (U "Masculinos") c then fallback_male else fallback_female.
Proof. unfold target_category. rewrite in_categorias_false. reflexivity. Qed.

Lemma target_of_name_category db age gender :
  target_category db (_get_name_category age gender) =
  if str_eqb (lower gender) (U "masculino") then fallback_male else fallback_female.
Proof.
  rewrite target_category_fallback. unfold _get_name_category.
  destruct (age <? 15)%Z, (age <=? 40)%Z, (str_eqb (lower gender) (U "masculino"));
    vm_compute; reflexivity.
Qed.

(** C4 (code bug).  The draw for the category of [_get_name_category]
    ignores the age band: for every database, every two ages and every
    gender, [_get_random_name] behaves the same on both categories
    (the per-gender fallback is always taken).  Concretely, a 10-year-old
    male's category "Nomes Masculinos Mais Comuns (recém-nascidos,
      crianças e pré-adolescentes)" exists in [db_child] with the single
    name "Pedro", yet the name issued is "José" from the fallback. *)
Theorem c4_age_band_ignored :
  (forall db age age' gender,
      _get_random_name db (_get_name_category age gender) =
      _get_random_name db (_get_name_category age' gender)) /\
  _get_name_category 10 (U "masculino") = child_male /\
  find_category db_child child_male = Some {| titulo := Some child_male; nomes := [U "Pedro"] |} /\
  fst (_get_random_name db_child (_get_name_category 10 (U "masculino")) (init db_child [0%nat])) =
    inr (U "José").
Proof.
  split.
  - intros db age age' gender. unfold _get_random_name.
    rewrite !target_of_name_category. reflexivity.
  - split; [| split]; vm_compute; reflexivity.
Qed.

(** ** Draws from one category *)

Lemma filter_avail_spec (u : gset str) l x :
  In x (List.filter (fun n => if decide (n ∈ u) then false else true) l) <-> In x l /\ x ∉ u.
Proof.
  rewrite filter_In. destruct (decide (x ∈ u)); split; intros [? ?]; try split; auto; try discriminate; contradiction.
Qed.

Lemma nth_In_mod {A} (l : list A) d n : l <> [] -> In (nth (n mod length l) l d) l.
Proof.
  intros Hl. apply nth_In. apply Nat.mod_upper_bound. destruct l; simpl; [congruence | lia].
Qed.

Lemma choice_in l s : l <> [] -> exists x s', choice l s = (inr x, s') /\ In x l /\ st_used s' = st_used s.
Proof.
  intros Hl. destruct l as [|d r]; [congruence|].
  unfold choice, bind, draw, ret. destruct (st_rng s) as [|n rr].
  - eexists _, _. split; [reflexivity|]. split; [apply nth_In_mod; congruence | reflexivity].
  - eexists _, _. split; [reflexivity|]. split; [apply nth_In_mod; congruence | reflexivity].
Qed.

Lemma step_fresh db c cd s u :
  find_category db (target_category db c) = Some cd ->
  st_used s !! target_category db c = Some u ->
  u ⊆ list_to_set (nomes cd) ->
  (size u < pool_size cd)%nat ->
  exists x s', _get_random_name db c s = (inr x, s') /\ In x (nomes cd) /\ (x ∉ u) /\
               st_used s' = <[target_category db c := {[x]} ∪ u]> (st_used s).
Proof.
  intros Hf Hu Hsub Hlt.
  assert (Hex : exists y, In y (nomes cd) /\ y ∉ u).
  { destruct (decide (list_to_set (nomes cd) ⊆ u)) as [Hs|Hs].
    - apply subseteq_size in Hs. unfold pool_size in Hlt. lia.
    - destruct (decide (Exists (fun y => y ∉ u) (nomes cd))) as [He|He].
      + apply Exists_exists in He. destruct He as [y [Hy1 Hy2]]. exists y. split; [apply list_elem_of_In; exact Hy1 | exact Hy2].
      + exfalso. apply Hs. intros y Hy. apply elem_of_list_to_set in Hy.
        destruct (decide (y ∈ u)) as [|Hn]; [assumption|].
        exfalso. apply He. apply Exists_exists. exists y. split; [exact Hy | exact Hn]. }
  destruct Hex as [y [Hy Hyu]].
  unfold _get_random_name. cbv zeta. rewrite Hf.
  set (t := target_category db c) in *.
  set (avail := List.filter (fun n => if decide (n ∈ u) then false else true) (nomes cd)).
  assert (Hav : avail <> []).
  { intro E. assert (In y avail) by (apply filter_avail_spec; auto). rewrite E in H. contradiction. }
  destruct (nomes cd) as [|p0 ps] eqn:Hn; [contradiction|].
  cbv [bind used_of get_used ret put_used]. rewrite Hu. fold avail.
  destruct (choice_in avail s) as [x [s1 [Hc [Hx Hs1]]]]; [exact Hav|].
  destruct avail as [|a r] eqn:Ea; [congruence|].
  rewrite <- Ea. rewrite <- Ea in Hc. rewrite Hc. rewrite Hs1, Hu.
  rewrite <- Ea in Hx. unfold avail in Hx. apply filter_avail_spec in Hx.
  eexists _, _. split; [reflexivity|]. simpl. rewrite Hs1. tauto.
Qed.

Lemma filter_avail_nil (u : gset str) l :
  (forall y, In y l -> y ∈ u) ->
  List.filter (fun n => if decide (n ∈ u) then false else true) l = [].
Proof.
  intros H. induction l as [|a l IH]; simpl; [reflexivity|].
  destruct (decide (a ∈ u)) as [|Hn]; [apply IH; intros; apply H; simpl; auto|].
  exfalso. apply Hn, H. simpl. auto.
Qed.

Lemma step_full db c cd s u :
  find_category db (target_category db c) = Some cd ->
  st_used s !! target_category db c = Some u ->
  list_to_set (nomes cd) ⊆ u ->
  nomes cd <> [] ->
  exists x s', _get_random_name db c s = (inr x, s') /\ In x (nomes cd) /\
               st_used s' = <[target_category db c := {[x]} ∪ ∅]> (st_used s).
Proof.
  intros Hf Hu Hsub Hne.
  unfold _get_random_name. cbv zeta. rewrite Hf.
  set (t := target_category db c) in *.
  assert (Hnil : List.filter (fun n => if decide (n ∈ u) then false else true) (nomes cd) = []).
  { apply filter_avail_nil. intros y Hy. apply Hsub, elem_of_list_to_set, list_elem_of_In, Hy. }
  set (s0 := {| st_rng := st_rng s; st_used := <[t:=∅]> (st_used s); st_fs := st_fs s |}).
  destruct (choice_in (nomes cd) s0) as [x [s1 [Hc [Hx Hs1]]]]; [exact Hne|].
  destruct (nomes cd) as [|p0 ps] eqn:Hn; [congruence|].
  cbv [bind used_of get_used ret put_used]. rewrite Hu. rewrite Hnil. rewrite Hu.
  fold s0. rewrite Hc. rewrite Hs1. simpl. rewrite lookup_insert_eq.
  eexists _, _. split; [reflexivity|]. split; [exact Hx|]. simpl. rewrite Hs1. simpl.
  apply insert_insert_eq.
Qed.

Lemma draws_S db c k s :
  draws db c (S k) s =
  match _get_random_name db c s with
  | (inr x, s1) => match draws db c k s1 with
                   | (inr l, s2) => (inr (x :: l), s2)
                   | (inl e, s2) => (inl e, s2)
                   end
  | (inl e, s1) => (inl e, s1)
  end.
Proof. reflexivity. Qed.

Lemma draws_fresh db c cd n :
  find_category db (target_category db c) = Some cd ->
  forall s u,
  st_used s !! target_category db c = Some u ->
  u ⊆ list_to_set (nomes cd) ->
  (size u + n <= pool_size cd)%nat ->
  exists l s', draws db c n s = (inr l, s') /\ length l = n /\ NoDup l /\
               (forall x, In x l -> In x (nomes cd) /\ x ∉ u) /\
               st_used s' !! target_category db c = Some (u ∪ list_to_set l).
Proof.
  intros Hf. induction n as [|k IH]; intros s u Hu Hsub Hle.
  - exists [], s. simpl. repeat split; auto using NoDup_nil_2; try contradiction.
    rewrite Hu. f_equal. set_solver.
  - destruct (step_fresh db c cd s u Hf Hu Hsub) as [x [s1 [Hg [Hx [Hxu Hs1]]]]]; [lia|].
    assert (Hu1 : st_used s1 !! target_category db c = Some ({[x]} ∪ u))
      by (rewrite Hs1; apply lookup_insert_eq).
    assert (Hsub1 : {[x]} ∪ u ⊆ list_to_set (nomes cd)).
    { apply union_subseteq; split; [| exact Hsub].
      apply singleton_subseteq_l, elem_of_list_to_set, list_elem_of_In, Hx. }
    assert (Hsz : size ({[x]} ∪ u) = S (size u)).
    { rewrite size_union; [rewrite size_singleton; lia | set_solver]. }
    destruct (IH s1 ({[x]} ∪ u) Hu1 Hsub1) as [l [s2 [Hd [Hlen [Hnd [Hin Hs2]]]]]]; [lia|].
    exists (x :: l), s2. rewrite draws_S, Hg, Hd. split; [reflexivity|].
    split; [simpl; lia|].
    split.
    + constructor; [| exact Hnd]. intro Hxl. apply list_elem_of_In in Hxl.
      destruct (Hin x Hxl) as [_ Hn]. apply Hn. set_solver.
    + split.
      * intros y [<- | Hy]; [auto|]. destruct (Hin y Hy) as [Hy1 Hy2]. split; [exact Hy1|]. set_solver.
      * rewrite Hs2. f_equal. rewrite list_to_set_cons. set_solver.
Qed.

(** ** The tracker after initialization *)

Lemma str_eqb_true a b : str_eqb a b = true <-> a = b.
Proof. unfold str_eqb. destruct (decide (a = b)); split; congruence. Qed.

Lemma covers_lookup db u t cd :
  tracker_covers db u -> find_category db t = Some cd -> exists v, u !! t = Some v.
Proof.
  intros Hc Hf. unfold find_category in Hf. apply find_some in Hf as [Hin Ht].
  destruct (titulo cd) as [t'|] eqn:E; [|discriminate].
  apply str_eqb_true in Ht. subst t'. destruct (Hc cd t Hin E) as [v Hv]. eauto.
Qed.

Lemma step_any db c cd s u :
  find_category db (target_category db c) = Some cd ->
  st_used s !! target_category db c = Some u ->
  nomes cd <> [] ->
  exists x s', _get_random_name db c s = (inr x, s') /\ In x (nomes cd).
Proof.
  intros Hf Hu Hne.
  unfold _get_random_name. cbv zeta. rewrite Hf.
  set (t := target_category db c) in *.
  destruct (List.filter (fun n => if decide (n ∈ u) then false else true) (nomes cd)) as [|a r] eqn:Ea.
  - set (s0 := {| st_rng := st_rng s; st_used := <[t:=∅]> (st_used s); st_fs := st_fs s |}).
    destruct (choice_in (nomes cd) s0) as [x [s1 [Hc [Hx Hs1]]]]; [exact Hne|].
    destruct (nomes cd) as [|p0 ps] eqn:Hn; [congruence|].
    cbv [bind used_of get_used ret put_used]. rewrite Hu. rewrite Ea. rewrite Hu.
    fold s0. rewrite Hc. rewrite Hs1. simpl. rewrite lookup_insert_eq.
    eexists _, _. split; [reflexivity| exact Hx].
  - destruct (choice_in (a :: r) s) as [x [s1 [Hc [Hx Hs1]]]]; [discriminate|].
    destruct (nomes cd) as [|p0 ps] eqn:Hn; [congruence|].
    cbv [bind used_of get_used ret put_used]. rewrite Hu. rewrite Ea.
    rewrite Hc. rewrite Hs1, Hu.
    rewrite <- Ea in Hx. apply filter_avail_spec in Hx.
    eexists _, _. split; [reflexivity| apply Hx].
Qed.

Lemma step_empty db c cd s u :
  find_category db (target_category db c) = Some cd ->
  st_used s !! target_category db c = Some u ->
  nomes cd = [] ->
  fst (_get_random_name db c s) = inl IndexError.
Proof.
  intros Hf Hu He.
  unfold _get_random_name. cbv zeta. rewrite Hf, He.
  cbv [bind used_of get_used ret put_used]. rewrite Hu. reflexivity.
Qed.

Lemma init_covers db : tracker_covers db (_initialize_used_names_tracker db).
Proof.
  unfold tracker_covers, _initialize_used_names_tracker.
  assert (Hgen : forall l (tr : gmap str (gset str)),
    (forall t, is_Some (tr !! t) -> is_Some (fold_left (fun tr c => <[match titulo c with Some t => t | None => [] end := ∅]> tr) l tr !! t)) /\
    (forall cd t, In cd l -> titulo cd = Some t ->
       is_Some (fold_left (fun tr c => <[match titulo c with Some t => t | None => [] end := ∅]> tr) l tr !! t))).
  { induction l as [|a l IH]; intros tr; simpl; split.
    - auto.
    - intros ? ? [].
    - intros t Ht. apply (proj1 (IH _)). destruct (decide ((match titulo a with Some t => t | None => [] end) = t)) as [<-|Hne].
      + rewrite lookup_insert_eq. eauto.
      + rewrite lookup_insert_ne by exact Hne. exact Ht.
    - intros cd t [<- | Hin] Ht.
      + apply (proj1 (IH _)). rewrite Ht, lookup_insert_eq. eauto.
      + exact (proj2 (IH _) cd t Hin Ht). }
  intros cd t Hin Ht. exact (proj2 (Hgen db ∅) cd t Hin Ht).
Qed.
(** C5.  Let [cd] be the category the draws of [category] end up in
    (with [pool_size cd] = K distinct names) and let its used-set be
    empty.  For every N <= K, N successive draws return N pairwise
    distinct names of the pool.  When N = K > 0, the K names issued are
    all names of the pool, and the next draw clears the used-set and
    returns one of the K names already issued (the only repeat): the
    used-set then holds just that name. *)
Theorem c5_no_repeat_until_exhaustion db c cd s n :
  find_category db (target_category db c) = Some cd ->
  st_used s !! target_category db c = Some ∅ ->
  (n <= pool_size cd)%nat ->
  exists l s', draws db c n s = (inr l, s') /\ length l = n /\ NoDup l /\
    (forall x, In x l -> In x (nomes cd)) /\
    (n = pool_size cd -> (0 < n)%nat ->
       list_to_set l = (list_to_set (nomes cd) : gset str) /\
       exists x s'', _get_random_name db c s' = (inr x, s'') /\ In x l /\
                     st_used s'' !! target_category db c = Some {[x]}).
Proof.
  intros Hf Hu Hle.
  destruct (draws_fresh db c cd n Hf s ∅ Hu) as [l [s1 [Hd [Hlen [Hnd [Hin Hs1]]]]]];
    [set_solver | rewrite size_empty; lia |].
  exists l, s1. split; [exact Hd|]. split; [exact Hlen|]. split; [exact Hnd|].
  split; [intros x Hx; apply (Hin x Hx)|].
  intros HK Hpos.
  assert (Hsub : (list_to_set l : gset str) ⊆ list_to_set (nomes cd)).
  { intros y Hy. apply elem_of_list_to_set, list_elem_of_In in Hy.
    apply elem_of_list_to_set, list_elem_of_In, (Hin y Hy). }
  assert (Heq : (list_to_set l : gset str) = list_to_set (nomes cd)).
  { apply set_subseteq_size_eq; [exact Hsub|].
    rewrite (size_list_to_set l Hnd). unfold pool_size in HK. lia. }
  split; [exact Heq|].
  assert (Hne : nomes cd <> []).
  { intro E. unfold pool_size in HK. rewrite E in HK.
    rewrite (size_list_to_set (C:=gset str) []) in HK by constructor. simpl in HK. lia. }
  destruct (step_full db c cd s1 (∅ ∪ list_to_set l) Hf Hs1) as [x [s2 [Hg [Hx Hs2]]]];
    [rewrite <- Heq; set_solver | exact Hne |].
  exists x, s2. split; [exact Hg|]. split.
  - apply list_elem_of_In, (elem_of_list_to_set (C := gset str)). rewrite Heq.
    apply elem_of_list_to_set, list_elem_of_In, Hx.
  - rewrite Hs2, lookup_insert_eq. f_equal. set_solver.
Qed.

Lemma c5_witness :
  exists l s', draws db_pool fallback_male 2 (init db_pool [0; 1; 0]%nat) = (inr l, s') /\
    length l = 2%nat /\ NoDup l /\
    (forall x, In x l -> In x [U "José"; U "Antônio"; U "José"]) /\
    (2%nat = pool_size {| titulo := Some fallback_male; nomes := [U "José"; U "Antônio"; U "José"] |} ->
     (0 < 2)%nat ->
       list_to_set l = (list_to_set [U "José"; U "Antônio"; U "José"] : gset str) /\
       exists x s'', _get_random_name db_pool fallback_male s' = (inr x, s'') /\ In x l /\
                     st_used s'' !! target_category db_pool fallback_male = Some {[x]}).
Proof.
  apply (c5_no_repeat_until_exhaustion db_pool fallback_male
           {| titulo := Some fallback_male; nomes := [U "José"; U "Antônio"; U "José"] |}
           (init db_pool [0; 1; 0]%nat) 2).
  - vm_compute. reflexivity.
  - vm_compute. reflexivity.
  - vm_compute. lia.
Defined.

(** C10 (amended).  When the tracker has a key for every title of the
    database (as [_initialize_used_names_tracker] builds it), a draw
    never raises [KeyError]: the category looked up is always one of the
    two fallback titles; if that title is absent from the database the
    draw returns "Nome Desconhecido" and changes nothing; if it is
    present with an empty name list the draw raises [IndexError];
    otherwise it returns a name of that list. *)
Theorem c10_total_under_tracker db c s :
  tracker_covers db (st_used s) ->
  (target_category db c = fallback_male \/ target_category db c = fallback_female) /\
  match find_category db (target_category db c) with
  | None => _get_random_name db c s = (inr (U "Nome Desconhecido"), s)
  | Some cd =>
      (nomes cd = [] -> fst (_get_random_name db c s) = inl IndexError) /\
      (nomes cd <> [] -> exists x s', _get_random_name db c s = (inr x, s') /\ In x (nomes cd))
  end.
Proof.
  intros Hc. split.
  - rewrite target_category_fallback. destruct (contains _ c). left; reflexivity. right; reflexivity.
  - destruct (find_category db (target_category db c)) as [cd|] eqn:Hf.
    + destruct (covers_lookup db (st_used s) _ cd Hc Hf) as [u Hu]. split.
      * intros He. exact (step_empty db c cd s u Hf Hu He).
      * intros Hne. exact (step_any db c cd s u Hf Hu Hne).
    + unfold _get_random_name. cbv zeta. rewrite Hf. reflexivity.
Qed.
Lemma c10_witness :
  (target_category db_child child_male = fallback_male \/
   target_category db_child child_male = fallback_female) /\
  match find_category db_child (target_category db_child child_male) with
  | None => _get_random_name db_child child_male (init db_child [0%nat]) =
              (inr (U "Nome Desconhecido"), init db_child [0%nat])
  | Some cd =>
      (nomes cd = [] -> fst (_get_random_name db_child child_male (init db_child [0%nat])) = inl IndexError) /\
      (nomes cd <> [] -> exists x s', _get_random_name db_child child_male (init db_child [0%nat]) = (inr x, s') /\
                                       In x (nomes cd))
  end.
Proof. exact (c10_total_under_tracker db_child child_male (init db_child [0%nat]) (init_covers db_child)). Defined.

(** ** Grammatical agreement *)

Lemma choice_forallb (P : str -> bool) l s :
  l <> [] -> forallb P l = true -> exists w s', choice l s = (inr w, s') /\ P w = true.
Proof.
  intros Hl HP. destruct (choice_in l s Hl) as [w [s' [Hc [Hw _]]]].
  exists w, s'. split; [exact Hc|]. rewrite forallb_forall in HP. auto.
Qed.

Ltac leaf_agrees :=
  match goal with
  | |- exists w s', ret _ _ = _ /\ _ => eexists _, _; split; [reflexivity | vm_compute; reflexivity]
  | |- exists w s', choice _ _ = _ /\ _ =>
      apply choice_forallb; [vm_compute; discriminate | vm_compute; reflexivity]
  end.

Ltac split_ifs :=
  repeat match goal with |- context [if ?b then _ else _] => destruct b end.

Lemma is_m_masc : is_m (U "masculino") = true.   Proof. reflexivity. Qed.
Lemma is_f_masc : is_f (U "masculino") = false.  Proof. reflexivity. Qed.
Lemma is_m_fem : is_m (U "feminino") = false.    Proof. reflexivity. Qed.
Lemma is_f_fem : is_f (U "feminino") = true.     Proof. reflexivity. Qed.

Lemma inferred_words_agree age title gender s :
  gender = U "masculino" \/ gender = U "feminino" ->
  (exists w s', _infer_occupation age title gender s = (inr w, s') /\ agrees gender w = true) /\
  (exists w s', _infer_marital_status age gender s = (inr w, s') /\ agrees gender w = true).
Proof.
  intros Hg. unfold _infer_occupation, _infer_marital_status, pick.
  destruct Hg; subst;
    rewrite ?is_m_masc, ?is_f_masc, ?is_m_fem, ?is_f_fem; split; split_ifs; leaf_agrees.
Qed.

Lemma find_fst_some (f : str -> bool) (tbl : list (str * str)) :
  (exists k, In k (map fst tbl) /\ f k = true) ->
  exists k v, List.find (fun p => f (fst p)) tbl = Some (k, v) /\ In v (map snd tbl).
Proof.
  intros Hk. destruct (List.find (fun p => f (fst p)) tbl) as [[k v]|] eqn:E.
  - apply find_some in E as [Hin _]. exists k, v. split; [reflexivity|].
    apply (in_map snd) in Hin. exact Hin.
  - destruct Hk as [k [Hk Hf]]. apply in_map_iff in Hk as [[k' v] [Hk' Hin]]. simpl in Hk'. subst k'.
    pose proof (find_none _ _ E (k, v) Hin) as Hn. simpl in Hn. congruence.
Qed.

Lemma find_fst_none (f : str -> bool) (tbl : list (str * str)) :
  ~ (exists k, In k (map fst tbl) /\ f k = true) ->
  List.find (fun p => f (fst p)) tbl = None.
Proof.
  intros Hk. destruct (List.find (fun p => f (fst p)) tbl) as [[k v]|] eqn:E; [|reflexivity].
  exfalso. apply find_some in E as [Hin Hf]. apply Hk. exists k. split; [|exact Hf].
  apply (in_map fst) in Hin. exact Hin.
Qed.

Lemma forallb_In {A} (P : A -> bool) l x : forallb P l = true -> In x l -> P x = true.
Proof. rewrite forallb_forall. auto. Qed.

Lemma corrections_agree ev :
  let g := lower (lookup_or ev k_genero) in
  let ms := lower (lookup_or ev k_estado_civil) in
  let oc := lower (lookup_or ev k_ocupacao) in
  g = U "masculino" \/ g = U "feminino" ->
  (In ms (map fst (corrections g)) ->
     exists v, correct_marital ev = <[k_estado_civil := v]> ev /\ agrees g v = true) /\
  (~ In ms (map fst (corrections g)) -> correct_marital ev = ev) /\
  ((exists k, In k (map fst (occupation_corrections g)) /\ contains k oc = true) ->
     exists v, correct_occupation ev = <[k_ocupacao := v]> ev /\ agrees g v = true) /\
  (~ (exists k, In k (map fst (occupation_corrections g)) /\ contains k oc = true) ->
     correct_occupation ev = ev).
Proof.
  intros g ms oc Hg.
  assert (Hk : known_gender (lookup_or ev k_genero) = true).
  { unfold known_gender. fold g. destruct Hg as [E|E]; rewrite E; reflexivity. }
  assert (Hv1 : forallb (agrees g) (map snd (corrections g)) = true)
    by (destruct Hg as [E|E]; rewrite E; vm_compute; reflexivity).
  assert (Hv2 : forallb (agrees g) (map snd (occupation_corrections g)) = true)
    by (destruct Hg as [E|E]; rewrite E; vm_compute; reflexivity).
  unfold correct_marital, correct_occupation. rewrite Hk. fold g ms oc.
  repeat split.
  - intros Hin. destruct (find_fst_some (fun k => str_eqb k ms) (corrections g)) as [k [v [E Hv]]].
    + exists ms. split; [exact Hin | apply str_eqb_true; reflexivity].
    + rewrite E. exists v. split; [reflexivity | exact (forallb_In _ _ _ Hv1 Hv)].
  - intros Hn. rewrite (find_fst_none (fun k => str_eqb k ms)); [reflexivity|].
    intros [k [Hk' Heq]]. apply str_eqb_true in Heq. subst k. contradiction.
  - intros Hin. destruct (find_fst_some (fun k => contains k oc) (occupation_corrections g) Hin) as [k [v [E Hv]]].
    rewrite E. exists v. split; [reflexivity | exact (forallb_In _ _ _ Hv2 Hv)].
  - intros Hn. rewrite (find_fst_none (fun k => contains k oc)); [reflexivity | exact Hn].
Qed.

(** C3 (amended).  For every age, title and draw stream, and gender
    [masculino] or [feminino], the occupation and the marital status
    synthesized are words of the patient's grammatical gender (or of
    both).  In a block whose (lower-cased) gender is [masculino] or
    [feminino], the correction step rewrites the marital status exactly
    when its lower-cased value is a key of the gender's table (viúvo,
    viúva, casado/casada, solteiro/solteira, divorciado/divorciada, with
    and without accent) and the occupation exactly when it contains a key
    of the gender's occupation table (professor, enfermeiro, funcionário,
    funcionário público, aposentado in the other gender); every
    rewritten word agrees with the gender, any other value is kept. *)
Theorem c3_gender_agreement :
  (forall age title gender s,
      gender = U "masculino" \/ gender = U "feminino" ->
      (exists w s', _infer_occupation age title gender s = (inr w, s') /\ agrees gender w = true) /\
      (exists w s', _infer_marital_status age gender s = (inr w, s') /\ agrees gender w = true)) /\
  (forall ev,
      let g := lower (lookup_or ev k_genero) in
      let ms := lower (lookup_or ev k_estado_civil) in
      let oc := lower (lookup_or ev k_ocupacao) in
      g = U "masculino" \/ g = U "feminino" ->
      (In ms (map fst (corrections g)) ->
         exists v, correct_marital ev = <[k_estado_civil := v]> ev /\ agrees g v = true) /\
      (~ In ms (map fst (corrections g)) -> correct_marital ev = ev) /\
      ((exists k, In k (map fst (occupation_corrections g)) /\ contains k oc = true) ->
         exists v, correct_occupation ev = <[k_ocupacao := v]> ev /\ agrees g v = true) /\
      (~ (exists k, In k (map fst (occupation_corrections g)) /\ contains k oc = true) ->
         correct_occupation ev = ev)).
Proof. split; [exact inferred_words_agree | exact corrections_agree]. Qed.

(** ** The identification field *)

Lemma split_aux_seg f a rest acc :
  ~ In 10 a -> (length a <= f)%nat ->
  split_aux f [10] (a ++ rest) acc = split_aux (f - length a) [10] rest (rev a ++ acc).
Proof.
  revert f acc. induction a as [|c a IH]; intros f acc Ha Hf.
  - simpl. rewrite Nat.sub_0_r. reflexivity.
  - destruct f as [|f]; [simpl in Hf; lia|].
    cbn [split_aux starts_with app]. assert (Hc : (10 =? c) = false).
    { apply N.eqb_neq. intro E. apply Ha. left. symmetry. exact E. }
    rewrite Hc. cbn [andb]. rewrite IH; [| intro H; apply Ha; right; exact H | simpl in Hf; lia].
    simpl rev. rewrite <- app_assoc. reflexivity.
Qed.


Lemma split_join ls f :
  ls <> [] -> Forall (fun l => ~ In 10 l) ls -> (length (join [10%N] ls) < f)%nat ->
  split_aux f [10] (join [10] ls) [] = ls.
Proof.
  revert f. induction ls as [|a r IH]; intros f Hne Hnl Hf; [congruence|].
  inversion Hnl as [|? ? Ha Hr]; subst.
  destruct r as [|b r].
  - simpl in Hf |- *. rewrite <- (app_nil_r a) at 1. rewrite split_aux_seg by (auto; lia).
    destruct (f - length a)%nat as [|f'] eqn:E; [lia|]. simpl. rewrite app_nil_r, rev_involutive. reflexivity.
  - change (join [10] (a :: b :: r)) with (a ++ [10] ++ join [10] (b :: r)) in Hf |- *.
    rewrite split_aux_seg by (auto; rewrite length_app in Hf; lia).
    rewrite !length_app in Hf. change (length [10%N]) with 1%nat in Hf.
    destruct (f - length a)%nat as [|f'] eqn:E; [lia|].
    simpl. rewrite app_nil_r, rev_involutive. f_equal. apply IH; [discriminate | exact Hr | lia].
Qed.

Lemma lower_c_nl c : lower_c c = 10 -> c = 10.
Proof.
  unfold lower_c.
  destruct ((65 <=? c) && (c <=? 90)) eqn:E1.
  - apply andb_true_iff in E1 as [E1 _]. apply N.leb_le in E1. lia.
  - destruct ((192 <=? c) && (c <=? 222) && negb (c =? 215)) eqn:E2; [|auto].
    apply andb_true_iff in E2 as [E2 _]. apply andb_true_iff in E2 as [E2 _]. apply N.leb_le in E2. lia.
Qed.

Lemma upper_c_nl c : upper_c c = 10 -> c = 10.
Proof.
  unfold upper_c.
  destruct ((97 <=? c) && (c <=? 122)) eqn:E1.
  - apply andb_true_iff in E1 as [E1 _]. apply N.leb_le in E1. lia.
  - destruct ((224 <=? c) && (c <=? 254) && negb (c =? 247)) eqn:E2; [|auto].
    apply andb_true_iff in E2 as [E2 _]. apply andb_true_iff in E2 as [E2 _]. apply N.leb_le in E2. lia.
Qed.

Lemma lower_no_nl s : ~ In 10 s -> ~ In 10 (lower s).
Proof.
  intros H Hin. unfold lower in Hin. apply in_map_iff in Hin as [c [Hc Hin]].
  apply lower_c_nl in Hc. subst. contradiction.
Qed.

Lemma capitalize_no_nl s : ~ In 10 s -> ~ In 10 (capitalize s).
Proof.
  destruct s as [|c r]; simpl; [auto|]. intros H [Hc | Hin].
  - apply H. left. apply upper_c_nl. exact Hc.
  - apply (lower_no_nl r); auto.
Qed.

Lemma digits_no_nl f n acc : ~ In 10 acc -> ~ In 10 (digits_aux f n acc).
Proof.
  revert n acc. induction f as [|f IH]; intros n acc H; simpl; [exact H|].
  assert (Hd : ~ In 10 ((48 + n mod 10) :: acc)).
  { intros [E | E]; [| contradiction]. pose proof (N.le_add_r 48 (n mod 10)). lia. }
  destruct (n <? 10); [exact Hd | apply IH, Hd].
Qed.

Lemma show_Z_no_nl z : ~ In 10 (show_Z z).
Proof.
  unfold show_Z. pose proof (digits_no_nl 64 (Z.to_N (Z.abs z)) [] (fun H => H)) as H.
  destruct (z <? 0)%Z; [intros [E | E]; [discriminate E | contradiction] | exact H].
Qed.

Lemma prefix_no_nl (p : string) x : ~ In 10 (U p) -> ~ In 10 x -> ~ In 10 (U p ++ x).
Proof. intros H1 H2 Hin. apply in_app_iff in Hin as [Hin | Hin]; contradiction. Qed.

Ltac concrete_no_nl := vm_compute; intros Hc; repeat (destruct Hc as [Hc | Hc]; [discriminate Hc |]); exact Hc.

Lemma info_lines_no_nl name age gender occupation marital_status origin context :
  ~ In 10 name -> ~ In 10 gender -> ~ In 10 occupation -> ~ In 10 marital_status ->
  (forall o, origin = Some o -> ~ In 10 o) ->
  Forall (fun l => ~ In 10 l) (info_lines name age gender occupation marital_status origin context).
Proof.
  intros Hn Hg Ho Hm Hor. unfold info_lines.
  apply Forall_app; split; [| apply Forall_app; split; [| apply Forall_app; split]].
  - repeat constructor.
    + apply prefix_no_nl; [concrete_no_nl | exact Hn].
    + apply prefix_no_nl; [concrete_no_nl|].
      intro Hin. apply in_app_iff in Hin as [Hin | Hin]; [apply (show_Z_no_nl age), Hin | revert Hin; concrete_no_nl].
  - destruct context as [c|]; [destruct (_is_lgbt_relevant_theme c)|]; repeat constructor.
    apply prefix_no_nl; [concrete_no_nl | apply capitalize_no_nl, Hg].
  - repeat constructor; apply prefix_no_nl; auto; concrete_no_nl.
  - destruct origin as [[|o os]|]; repeat constructor.
    apply prefix_no_nl; [concrete_no_nl | apply (Hor _ eq_refl)].
Qed.

Lemma info_lines_gender name age gender occupation marital_status origin context :
  existsb (starts_with (U "Gênero: ")) (info_lines name age gender occupation marital_status origin context) =
  match context with Some c => _is_lgbt_relevant_theme c | None => false end.
Proof.
  unfold info_lines. generalize (show_Z age) (capitalize gender). intros sa cg.
  rewrite !existsb_app.
  destruct context as [c|]; [destruct (_is_lgbt_relevant_theme c)|];
    destruct origin as [[|o os]|]; vm_compute; reflexivity.
Qed.

Lemma field_text name age gender occupation marital_status origin context :
  i_informacao (_create_identification_field name age gender occupation marital_status origin context) =
  Some (join [10] (info_lines name age gender occupation marital_status origin context)).
Proof. reflexivity. Qed.

(** C6.  For every name, age, gender, occupation, marital status and
    origin without a newline, and every context given to
    [_create_identification_field], the field's text, split at its
    newlines, has a line starting with "Gênero: " if and only if a
    context is given and [_is_lgbt_relevant_theme] holds of it
    ([process_file] passes the record's title as the context). *)
Theorem c6_gender_line_iff_lgbt name age gender occupation marital_status origin context :
  ~ In 10 name -> ~ In 10 gender -> ~ In 10 occupation -> ~ In 10 marital_status ->
  (forall o, origin = Some o -> ~ In 10 o) ->
  (exists text,
      i_informacao (_create_identification_field name age gender occupation marital_status origin context) = Some text /\
      exists line, In line (split text (U "
")) /\ starts_with (U "Gênero: ") line = true) <->
  match context with Some c => _is_lgbt_relevant_theme c = true | None => False end.
Proof.
  intros Hn Hg Ho Hm Hor.
  set (ls := info_lines name age gender occupation marital_status origin context).
  assert (Hsplit : split (join [10] ls) [10] = ls).
  { unfold split. apply split_join; [unfold ls, info_lines; cbn [app]; discriminate
                                    | apply info_lines_no_nl; assumption | lia]. }
  change (U "
") with [10].
  pose proof (info_lines_gender name age gender occupation marital_status origin context) as Hb.
  fold ls in Hb. rewrite field_text. fold ls. split.
  - intros [text [E [line [Hin Hs]]]]. assert (Et : text = join [10] ls) by congruence. subst text. rewrite Hsplit in Hin.
    assert (Hx : existsb (starts_with (U "Gênero: ")) ls = true)
      by (apply existsb_exists; eauto).
    rewrite Hb in Hx. destruct context; [exact Hx | discriminate Hx].
  - intros Hc. exists (join [10] ls). split; [reflexivity|]. rewrite Hsplit.
    apply existsb_exists. rewrite Hb. destruct context; [exact Hc | contradiction].
Qed.

Lemma c6_witness :
  (exists text,
      i_informacao (_create_identification_field (U "Ana Souza") 30 (U "feminino") (U "Professora")
                      (U "Casada") None (Some (Some (U "HIV em gestante")))) = Some text /\
      exists line, In line (split text (U "
")) /\ starts_with (U "Gênero: ") line = true) <->
  _is_lgbt_relevant_theme (Some (U "HIV em gestante")) = true.
Proof.
  apply (c6_gender_line_iff_lgbt (U "Ana Souza") 30 (U "feminino") (U "Professora") (U "Casada") None
           (Some (Some (U "HIV em gestante"))));
    [concrete_no_nl | concrete_no_nl | concrete_no_nl | concrete_no_nl | intros o Ho; discriminate Ho].
Defined.

(** ** The canonical opening *)

Lemma lower_c_cases c x : 97 <= x <= 122 -> lower_c c = x -> c = x \/ c = x - 32.
Proof.
  intros Hx. unfold lower_c.
  destruct ((65 <=? c) && (c <=? 90)) eqn:E1.
  - intros <-. right. lia.
  - destruct ((192 <=? c) && (c <=? 222) && negb (c =? 215)) eqn:E2.
    + apply andb_true_iff in E2 as [E2 _]. apply andb_true_iff in E2 as [E2 _].
      apply N.leb_le in E2. lia.
    + intros <-. left. reflexivity.
Qed.

Lemma starts_with_cons a p b s : starts_with (a :: p) (b :: s) = (a =? b) && starts_with p s.
Proof. reflexivity. Qed.


Lemma opening_ok_head x s :
  opening_ok (x :: s) = true -> x = 112 \/ x = 99 \/ x = 114 \/ x = 97 \/ x = 113.
Proof.
  unfold opening_ok. cbn [existsb clinical_openings].
  change (U "paciente") with (112 :: U "aciente").
  change (U "com dor") with (99 :: U "om dor").
  change (U "referindo") with (114 :: U "eferindo").
  change (U "apresenta") with (97 :: U "presenta").
  change (U "queixa") with (113 :: U "ueixa").
  rewrite !starts_with_cons.
  intros H. repeat (apply orb_true_iff in H as [H | H]);
    try (apply andb_true_iff in H as [H _]; apply N.eqb_eq in H; lia).
  discriminate H.
Qed.

Lemma finish_spec0 t :
  let r := finish t in
  r <> [] /\
  (t = [] -> r = U "Paciente") /\
  (exists c rest, r = c :: rest /\ In [c] [U "P"; U "C"; U "R"; U "A"; U "Q"]) /\
  opening_ok (lower r) = true /\
  (t <> [] -> opening_ok (lower t) = false -> r = U "Paciente " ++ t).
Proof.
  intros r. unfold r, finish. destruct t as [|c0 t'].
  - vm_compute. split; [discriminate|]. split; [reflexivity|]. split; [|split; [reflexivity | intros H; contradiction]].
    eexists _, _. split; [reflexivity | left; reflexivity].
  - fold (opening_ok (lower (c0 :: t'))).
    destruct (opening_ok (lower (c0 :: t'))) eqn:Et.
    + change (lower (c0 :: t')) with (lower_c c0 :: lower t') in Et.
      pose proof (opening_ok_head _ _ Et) as Hx.
      assert (Hc : c0 = lower_c c0 \/ c0 = lower_c c0 - 32)
        by (apply lower_c_cases; [lia | reflexivity]).
      split; [discriminate|]. split; [discriminate|].
      split; [| split; [| intros _ Hf; discriminate Hf]].
      * eexists _, _. split; [reflexivity|].
        destruct Hx as [E|[E|[E|[E|E]]]]; rewrite E in Hc; destruct Hc as [Hc|Hc]; subst c0; vm_compute; auto 6.
      * change (lower (upper_c c0 :: t')) with (lower_c (upper_c c0) :: lower t').
        replace (lower_c (upper_c c0)) with (lower_c c0); [exact Et|].
        destruct Hx as [E|[E|[E|[E|E]]]]; rewrite E in Hc; destruct Hc as [Hc|Hc]; subst c0; reflexivity.
    + split; [discriminate|]. split; [discriminate|].
      split; [eexists _, _; split; [reflexivity | left; reflexivity]|].
      split; [vm_compute; reflexivity | intros _ _; reflexivity].
Qed.

Lemma finish_keep t c rest :
  t = c :: rest -> opening_ok (lower t) = true -> finish t = upper_c c :: rest.
Proof.
  intros -> H. unfold finish. fold (opening_ok (lower (c :: rest))). rewrite H. reflexivity.
Qed.

Lemma finish_spec t :
  let r := finish t in
  r <> [] /\
  (t = [] -> r = U "Paciente") /\
  (exists c rest, r = c :: rest /\ In [c] [U "P"; U "C"; U "R"; U "A"; U "Q"]) /\
  opening_ok (lower r) = true /\
  (t <> [] -> opening_ok (lower t) = false -> r = U "Paciente " ++ t) /\
  (forall c rest, t = c :: rest -> opening_ok (lower t) = true -> r = upper_c c :: rest).
Proof.
  intros r. destruct (finish_spec0 t) as (H1 & H2 & H3 & H4 & H5).
  exact (conj H1 (conj H2 (conj H3 (conj H4 (conj H5 (fun c rest E Ho => finish_keep t c rest E Ho)))))).
Qed.

(** C8 (amended).  For every description, age and gender, with [t]
    the text after steps 2 to 9 up to the canonical opening, the result
    is non-empty; it starts with one of the upper-case letters P, C, R,
    A, Q; lower-cased, it starts with "paciente" (as a prefix, possibly
    of a longer word) or with one of "com dor", "referindo",
    "apresenta", "queixa"; it is "Paciente" when [t] is empty, and
    "Paciente " followed by [t] when [t] is non-empty and does not so
    open; when [t] is non-empty and does so open, the result is [t]
    itself with only its first character upper-cased (no prefix). *)
Theorem c8_canonical_output description age gender :
  let t := tidy (steps678 (step5 (step4 (step3 (step2 description))))) in
  let r := _clean_description description age gender in
  r <> [] /\
  (t = [] -> r = U "Paciente") /\
  (exists c rest, r = c :: rest /\ In [c] [U "P"; U "C"; U "R"; U "A"; U "Q"]) /\
  opening_ok (lower r) = true /\
  (t <> [] -> opening_ok (lower t) = false -> r = U "Paciente " ++ t) /\
  (forall c rest, t = c :: rest -> opening_ok (lower t) = true -> r = upper_c c :: rest).
Proof. intros t r. exact (finish_spec t). Qed.

(** ** Descriptions the scrubber patterns do not touch *)

Lemma sub_no_match p repl s : Re.re_search p s = None -> Re.sub p repl s = s.
Proof.
  unfold Re.re_search, Re.sub, Re.all_matches, Re.search. intros H.
  simpl. rewrite Nat.sub_0_r. destruct (Re.search_from _ _ _ _ _) as [[[? ?] ?]|]; [discriminate|].
  reflexivity.
Qed.

Lemma findall_no_match p s : Re.re_search p s = None -> Re.findall p s = [].
Proof.
  unfold Re.re_search, Re.findall, Re.all_matches, Re.search. intros H.
  simpl. rewrite Nat.sub_0_r. destruct (Re.search_from _ _ _ _ _) as [[[? ?] ?]|]; [discriminate|].
  reflexivity.
Qed.

Lemma sub_all_no_match pats fl repl s :
  forallb (no_match fl s) pats = true -> sub_all pats fl repl s = s.
Proof.
  unfold sub_all. induction pats as [|p ps IH]; simpl; [reflexivity|].
  intros H. apply andb_true_iff in H as [Hp Hps].
  unfold no_match in Hp. destruct (Re.re_search (re_compile p fl) s) eqn:E; [discriminate|].
  rewrite (sub_no_match _ _ _ E). apply IH, Hps.
Qed.

Lemma fold_findall_no_match {A} (step : str -> A -> str) pats fl (conv : list str -> list A) s :
  conv [] = [] ->
  forallb (no_match fl s) pats = true ->
  fold_left (fun c p => fold_left step (conv (Re.findall (re_compile p fl) c)) c) pats s = s.
Proof.
  intros Hc. induction pats as [|p ps IH]; simpl; [reflexivity|].
  intros H. apply andb_true_iff in H as [Hp Hps].
  unfold no_match in Hp. destruct (Re.re_search (re_compile p fl) s) eqn:E; [discriminate|].
  rewrite (findall_no_match _ _ E), Hc. apply IH, Hps.
Qed.

Lemma first_search_no_match pats fl s :
  forallb (no_match fl s) pats = true -> first_search pats fl s = None.
Proof.
  induction pats as [|p ps IH]; simpl; [reflexivity|].
  intros H. apply andb_true_iff in H as [Hp Hps].
  unfold no_match in Hp. destruct (Re.re_search (re_compile p fl) s) eqn:E; [discriminate|].
  apply IH, Hps.
Qed.

Lemma replacements_no_match (reps : list (string * string)) s :
  forallb (no_match Re.IGNORECASE s) (map fst reps) = true ->
  fold_left (fun s '(o, n) => Re.sub (re_compile o Re.IGNORECASE) (U n) s) reps s = s.
Proof.
  induction reps as [|[o n] r IH]; simpl; [reflexivity|].
  intros H. apply andb_true_iff in H as [Hp Hps].
  unfold no_match in Hp. destruct (Re.re_search (re_compile o Re.IGNORECASE) s) eqn:E; [discriminate|].
  rewrite (sub_no_match _ _ _ E). apply IH, Hps.
Qed.

Lemma scrub_steps_id s :
  no_scrub_pattern s = true ->
  steps678 (step5 (step4 (step3 (step2 s)))) = s.
Proof.
  unfold no_scrub_pattern. intros H.
  rewrite !forallb_app in H. rewrite !andb_true_iff in H.
  destruct H as [[Hfil (H1 & H2 & H3 & H4 & H5 & H6 & H7 & H8)] Hnf].
  unfold step2. rewrite (first_search_no_match _ _ _ Hfil).
  unfold step3. rewrite (sub_all_no_match _ _ _ s H1), (sub_all_no_match _ _ _ s H2),
    (sub_all_no_match _ _ _ s H3).
  rewrite (fold_findall_no_match name_step _ _ (fun l => l)) by (reflexivity || assumption).
  unfold step4. rewrite (fold_findall_no_match age_gender_step _ _ (fun l => l)) by (reflexivity || assumption).
  unfold step5. rewrite (fold_findall_no_match occupation_step _ _ (fun l => l)) by (reflexivity || assumption).
  unfold steps678. rewrite (sub_all_no_match _ _ _ s H6), (sub_all_no_match _ _ _ s H7).
  apply replacements_no_match. assumption.
Qed.

(** C2 (amended).  For every description on which none of the patterns
    of steps 2 to 8 of [_clean_description] matches (each with the flags
    of its step), and every age and gender, the result is the final
    normalization of step 9 applied to the description itself:
    whitespace runs collapsed, doubled punctuation repaired, leading
    punctuation and a leading "o/a/um/uma paciente", "que" or "e que"
    removed, "Paciente " prepended unless the text opens with "paciente"
    or a clinical phrase, and the first letter upper-cased. *)
Theorem c2_scrub_only_normalizes description age gender :
  no_scrub_pattern description = true ->
  _clean_description description age gender = finish (tidy description).
Proof. intros H. unfold _clean_description. rewrite (scrub_steps_id _ H). reflexivity. Qed.

Lemma c2_witness :
  _clean_description (U "Dor.") 34 (U "feminino") = finish (tidy (U "Dor.")).
Proof. apply (c2_scrub_only_normalizes (U "Dor.") 34 (U "feminino")). vm_compute. reflexivity. Defined.


(** ** The fallback of process_file *)

Lemma choice_Z_in l s : l <> [] -> exists x s', choice_Z l s = (inr x, s') /\ In x l.
Proof.
  intros Hl. destruct l as [|d r]; [congruence|].
  unfold choice_Z, bind, draw, ret. destruct (st_rng s) as [|n rr];
    (eexists _, _; split; [reflexivity | apply nth_In_mod; congruence]).
Qed.

Lemma infer_age_positive c g s :
  exists a s', _infer_age_from_context c g s = (inr a, s') /\ (0 < a)%Z.
Proof.
  unfold _infer_age_from_context. split_ifs;
    match goal with |- context [choice_Z ?l s] =>
      destruct (choice_Z_in l s) as [a [s' [E Ha]]]; [discriminate|];
      exists a, s'; split; [exact E|]; simpl in Ha; intuition lia
    end.
Qed.

Lemma infer_gender_known d s :
  exists g s', infer_gender d s = (inr g, s') /\ (g = U "masculino" \/ g = U "feminino").
Proof.
  unfold infer_gender, random_lt, bind, draw, ret.
  split_ifs; try (eexists _, _; split; [reflexivity | vm_compute; auto]);
    destruct (st_rng s) as [|n r]; split_ifs; (eexists _, _; split; [reflexivity | auto]).
Qed.

Lemma resolve_truthy title age gender s :
  exists a g s', resolve title age gender s = (inr (a, g), s') /\
                 age_truthy a = true /\ gender_truthy g = true.
Proof.
  unfold resolve, bind, ret.
  destruct (age_truthy age) eqn:Ea; destruct (gender_truthy gender) eqn:Eg; cbn [negb].
  - rewrite Ea, Eg. cbn. exists age, gender, s. auto.
  - rewrite Ea, Eg. cbn.
    destruct (infer_gender_known (lower title) s) as [g [s1 [E Hg]]]. rewrite E.
    eexists _, _, _. split; [reflexivity|]. destruct Hg; subst; auto.
  - destruct (infer_age_positive (Some title) (match gender with Some g => g | None => [] end) s)
      as [a [s1 [E Ha]]]. rewrite E.
    assert (Hz : age_truthy (Some a) = true) by (simpl; apply negb_true_iff, Z.eqb_neq; lia).
    rewrite Hz, Eg. cbn. eexists _, _, _. split; [reflexivity|]. auto.
  - destruct (infer_gender_known (lower title) s) as [g [s1 [E Hg]]]. rewrite E.
    destruct (infer_age_positive (Some title) g s1) as [a [s2 [E2 Ha]]]. rewrite E2.
    assert (Hz : age_truthy (Some a) = true) by (simpl; apply negb_true_iff, Z.eqb_neq; lia).
    assert (Hgt : gender_truthy (Some g) = true) by (destruct Hg; subst; reflexivity).
    rewrite Hz, Hgt. cbn. eexists _, _, _. split; [reflexivity|]. auto.
Qed.

(** ** The outcomes of process_file *)

(** A result that, when it is a value, is a success. *)
Definition only_true {A} (r : (exn + (bool * A)) * St) : Prop :=
  match fst r with inr (b, _) => b = true | inl _ => True end.

Lemma bind_only_true {A B} (c : M A) (k : A -> M (bool * B)) s :
  (forall a s', only_true (k a s')) -> only_true (bind c k s).
Proof. intros H. unfold bind. destruct (c s) as [[e|a] s']; [exact I | apply H]. Qed.

Lemma bind_inr {A B} (c : M A) (k : A -> M B) s a s' :
  c s = (inr a, s') -> bind c k s = k a s'.
Proof. unfold bind. intros ->. reflexivity. Qed.

Lemma bind_inl {A B} (c : M A) (k : A -> M B) s e s' :
  c s = (inl e, s') -> bind c k s = (inl e, s').
Proof. unfold bind. intros ->. reflexivity. Qed.

Lemma body_result db path s d desc :
  st_fs s !! path = Some (FJson d) -> d_descricao d = Some desc ->
  forall b m, fst (body db path s) = inr (b, m) -> b = true \/ hd 0 m = 65.
Proof.
  intros Hfs Hd b m.
  unfold body. rewrite (bind_inr get_fs _ s (st_fs s) s eq_refl). cbv beta. rewrite Hfs.
  destruct (Checks._check_duplicate_identification d) as [hdup cnt].
  destruct hdup; [intros H; injection H as <- <-; right; reflexivity|].
  destruct (Checks._is_file_already_correct d) as [ic cm].
  destruct (negb (0 <? cnt)%nat && ic); [intros H; injection H as <- <-; right; reflexivity|].
  rewrite Hd.
  destruct (Extract._extract_age_gender_from_description desc s) as [[e|[age gender]] s1] eqn:Ex.
  - rewrite (bind_inl _ _ _ _ _ Ex). discriminate.
  - rewrite (bind_inr _ _ _ _ _ Ex). cbv beta iota zeta.
    match goal with |- context [bind (resolve ?t ?a ?g) _ ?st] =>
      destruct (resolve_truthy t a g st) as [a' [g' [s2 [Er [Ha Hg]]]]];
      rewrite (bind_inr _ _ _ _ _ Er)
    end.
    cbv beta iota. rewrite Ha, Hg. cbn [negb orb].
    intros H. left.
    match goal with H : fst ?r = _ |- _ =>
      assert (Ho : only_true r); [| unfold only_true in Ho; rewrite H in Ho; exact Ho] end.
    repeat (apply bind_only_true; intros ? ?).
    match goal with |- only_true ((if ?c then _ else _) _) => destruct c end; reflexivity.
Qed.

(** C9: for a record that has the narrative field, the fallback always
    assigns a positive age and a gender in {masculino, feminino}, and
    process_file never returns the could-not-extract failure. *)
Lemma c9_extraction_failure_unreachable db path s d description :
  st_fs s !! path = Some (FJson d) -> d_descricao d = Some description ->
  (forall c g s0, exists a s', _infer_age_from_context c g s0 = (inr a, s') /\ (0 < a)%Z) /\
  (forall t s0, exists g s', infer_gender t s0 = (inr g, s') /\ (g = U "masculino" \/ g = U "feminino")) /\
  fst (process_file db path s) <> inr (false, msg_extraction description).
Proof.
  intros Hfs Hd. split; [exact infer_age_positive|]. split; [exact infer_gender_known|].
  assert (Hn : hd 0 (msg_extraction description) = 78) by reflexivity.
  unfold process_file, catch.
  destruct (body db path s) as [[e|[b m]] s'] eqn:E.
  - discriminate.
  - intros H. inversion H; subst b m.
    destruct (body_result db path s d description Hfs Hd false (msg_extraction description))
      as [Hb | Hm]; [rewrite E; reflexivity | discriminate | rewrite Hm in Hn; discriminate].
Qed.

Lemma contains_app_r sub l r : contains sub r = true -> contains sub (l ++ r) = true.
Proof. intros H. induction l as [|c l IH]; [exact H|]. simpl. rewrite IH. apply orb_true_r. Qed.

(** C7: a record with more than one IDENTIFICAÇÃO DO PACIENTE entry is
    skipped with the duplicate message before any draw or write (the whole
    state, files included, is returned unchanged), and the report counts
    that message as a duplicate, not as an error. *)
Lemma c7_duplicates_untouched db path s d :
  st_fs s !! path = Some (FJson d) ->
  (1 < length (List.filter Checks.is_ident (Checks.info_array d)))%nat ->
  let n := length (List.filter Checks.is_ident (Checks.info_array d)) in
  process_file db path s = (inr (false, msg_duplicates n), s) /\
  counted_duplicate (msg_duplicates n) = true /\
  listed_as_error (msg_duplicates n) = false.
Proof.
  intros Hfs Hlt n.
  assert (Hc : counted_duplicate (msg_duplicates n) = true).
  { unfold counted_duplicate, has, msg_duplicates, lower. rewrite !map_app.
    apply contains_app_r, contains_app_r. vm_compute. reflexivity. }
  split; [| split; [exact Hc | unfold listed_as_error; rewrite Hc, orb_true_r; reflexivity]].
  unfold process_file, catch, body.
  rewrite (bind_inr get_fs _ s (st_fs s) s eq_refl). cbv beta. rewrite Hfs.
  unfold Checks._check_duplicate_identification. fold n.
  apply Nat.ltb_lt in Hlt. fold n in Hlt. rewrite Hlt. reflexivity.
Qed.

Lemma c9_witness :
  st_fs (with_file (U "caso.json") plain_record) !! U "caso.json" = Some (FJson plain_record) /\
  d_descricao plain_record = Some (U "Dor lombar há duas semanas.") /\
  fst (process_file db_child (U "caso.json") (with_file (U "caso.json") plain_record))
    <> inr (false, msg_extraction (U "Dor lombar há duas semanas.")).
Proof.
  split; [vm_compute; reflexivity | split; [reflexivity |]].
  exact (proj2 (proj2 (c9_extraction_failure_unreachable db_child (U "caso.json")
           (with_file (U "caso.json") plain_record) plain_record (U "Dor lombar há duas semanas.")
           ltac:(vm_compute; reflexivity) eq_refl))).
Defined.

Lemma c7_witness :
  st_fs (with_file (U "caso.json") dup_record) !! U "caso.json" = Some (FJson dup_record) /\
  (1 < length (List.filter Checks.is_ident (Checks.info_array dup_record)))%nat /\
  process_file db_child (U "caso.json") (with_file (U "caso.json") dup_record) =
    (inr (false, msg_duplicates 2), with_file (U "caso.json") dup_record).
Proof.
  split; [vm_compute; reflexivity | split; [apply Nat.ltb_lt; vm_compute; reflexivity |]].
  exact (proj1 (c7_duplicates_untouched db_child (U "caso.json") (with_file (U "caso.json") dup_record)
           dup_record ltac:(vm_compute; reflexivity) ltac:(apply Nat.ltb_lt; vm_compute; reflexivity))).
Defined.

(** ** Helpers for the further properties *)

Lemma fs_pure_ret {A} (a : A) : fs_pure (ret a).
Proof. intros s. reflexivity. Qed.

Lemma fs_pure_raise {A} e : fs_pure (@raise A e).
Proof. intros s. reflexivity. Qed.

Lemma fs_pure_draw : fs_pure draw.
Proof. intros s. unfold draw. destruct (st_rng s); reflexivity. Qed.

Lemma fs_pure_get_used : fs_pure get_used.
Proof. intros s. reflexivity. Qed.

Lemma fs_pure_put_used u : fs_pure (put_used u).
Proof. intros s. reflexivity. Qed.

Lemma fs_pure_bind {A B} (c : M A) (k : A -> M B) :
  fs_pure c -> (forall a, fs_pure (k a)) -> fs_pure (bind c k).
Proof.
  intros Hc Hk s. unfold bind. specialize (Hc s).
  destruct (c s) as [[e|a] s'] eqn:E; simpl in *; [exact Hc | rewrite Hk; exact Hc].
Qed.

Ltac fs_pure_tac :=
  repeat (first [ apply fs_pure_ret | apply fs_pure_raise | apply fs_pure_draw
                | apply fs_pure_get_used | apply fs_pure_put_used
                | apply fs_pure_bind; [| intros ?]
                | case_match ]).

Lemma fs_pure_choice l : fs_pure (choice l).
Proof. unfold choice. fs_pure_tac. Qed.

Lemma fs_pure_choice_Z l : fs_pure (choice_Z l).
Proof. unfold choice_Z. fs_pure_tac. Qed.

Lemma fs_pure_random_lt p : fs_pure (random_lt p).
Proof. unfold random_lt. fs_pure_tac. Qed.

Lemma fs_pure_used_of c : fs_pure (used_of c).
Proof. unfold used_of. fs_pure_tac. Qed.

Lemma fs_pure_get_random_name db c : fs_pure (_get_random_name db c).
Proof. unfold _get_random_name. cbv zeta. fs_pure_tac; first [apply fs_pure_used_of | apply fs_pure_choice]. Qed.

Lemma fs_pure_infer_age c g : fs_pure (_infer_age_from_context c g).
Proof. unfold _infer_age_from_context. cbv zeta. repeat case_match; apply fs_pure_choice_Z. Qed.

Lemma fs_pure_infer_occupation a c g : fs_pure (_infer_occupation a c g).
Proof. unfold _infer_occupation, pick. cbv zeta. repeat case_match; first [apply fs_pure_ret | apply fs_pure_choice]. Qed.

Lemma fs_pure_infer_marital a g : fs_pure (_infer_marital_status a g).
Proof. unfold _infer_marital_status, pick. repeat case_match; first [apply fs_pure_ret | apply fs_pure_choice]. Qed.

Lemma fs_pure_infer_gender t : fs_pure (infer_gender t).
Proof. unfold infer_gender. cbv zeta. repeat case_match; fs_pure_tac; apply fs_pure_random_lt. Qed.

Lemma fs_pure_resolve t a g : fs_pure (resolve t a g).
Proof.
  unfold resolve. apply fs_pure_bind.
  - repeat case_match; fs_pure_tac; first [apply fs_pure_infer_age | apply fs_pure_infer_gender].
  - intros [a' g']. cbv iota. case_match; fs_pure_tac; apply fs_pure_infer_gender.
Qed.

Lemma fs_pure_age_loop ps d : fs_pure (Extract.age_loop ps d).
Proof.
  induction ps as [|p ps IH]; simpl; [apply fs_pure_ret|].
  repeat case_match; fs_pure_tac; first [exact IH | apply fs_pure_choice_Z].
Qed.

Lemma fs_pure_extract d : fs_pure (Extract._extract_age_gender_from_description d).
Proof. unfold Extract._extract_age_gender_from_description. apply fs_pure_bind; [apply fs_pure_age_loop|]. intros. apply fs_pure_ret. Qed.

Lemma age_loop_spec ps d s :
  exists a s', Extract.age_loop ps d s = (inr a, s') /\
    match a with Some z => (0 <= z)%Z | None => True end.
Proof.
  revert s. induction ps as [|p ps IH]; intros s; simpl; [eexists _, _; split; [reflexivity | exact I]|].
  repeat case_match; try apply IH;
    try (eexists _, _; split; [reflexivity | unfold read_Z; lia]).
  all: destruct (choice_Z_in [65; 70; 75; 80; 85]%Z s) as [a [s' [E Ha]]]; [discriminate|].
  all: rewrite (bind_inr _ _ _ _ _ E); eexists _, _; split; [reflexivity|]; simpl in Ha; intuition lia.
Qed.

Ltac tri := match goal with |- ?a = ?b \/ ?c = ?d \/ ?e = ?f =>
  first [constr_eq a b; left; reflexivity | constr_eq c d; right; left; reflexivity
        | constr_eq e f; right; right; reflexivity] end.

Lemma gender_loop_spec d :
  Extract.gender_loop d = None \/ Extract.gender_loop d = Some Extract.masc \/ Extract.gender_loop d = Some Extract.fem.
Proof. unfold Extract.gender_loop. cbv zeta. repeat case_match; tri. Qed.

Lemma context_pass1_spec d :
  Extract.context_pass1 d = None \/ Extract.context_pass1 d = Some Extract.masc \/ Extract.context_pass1 d = Some Extract.fem.
Proof. unfold Extract.context_pass1. repeat case_match; tri. Qed.

Lemma context_pass2_spec d :
  Extract.context_pass2 d = None \/ Extract.context_pass2 d = Some Extract.masc \/ Extract.context_pass2 d = Some Extract.fem.
Proof. unfold Extract.context_pass2. repeat case_match; tri. Qed.

Lemma or_else_spec (P : option str -> Prop) (o1 o2 : option str) :
  P o1 -> P o2 -> P (match o1 with Some _ => o1 | None => o2 end).
Proof. destruct o1; auto. Qed.

Lemma gender_t d :
  gsp (let g := Extract.gender_loop d in
       let g := match g with Some _ => g | None => Extract.context_pass1 (lower d) end in
       match g with Some _ => g | None => Extract.context_pass2 (lower d) end).
Proof.
  cbv zeta. apply (or_else_spec gsp); [apply (or_else_spec gsp)|];
    [apply gender_loop_spec | apply context_pass1_spec | apply context_pass2_spec].
Qed.

Lemma extract_spec d s :
  exists a g s', Extract._extract_age_gender_from_description d s = (inr (a, g), s') /\
    match a with Some z => (0 <= z)%Z | None => True end /\ gsp g /\ st_fs s' = st_fs s.
Proof.
  destruct (age_loop_spec Extract.age_patterns d s) as [a [s' [E Ha]]].
  pose proof (fs_pure_age_loop Extract.age_patterns d s) as P. rewrite E in P.
  unfold Extract._extract_age_gender_from_description. rewrite (bind_inr _ _ _ _ _ E).
  eexists _, _, _. split; [reflexivity|]. split; [exact Ha|]. split; [apply gender_t | exact P].
Qed.

Lemma bind_assoc {A B C} (c : M A) (k1 : A -> M B) (k2 : B -> M C) s :
  bind (bind c k1) k2 s = bind c (fun a => bind (k1 a) k2) s.
Proof. unfold bind. destruct (c s) as [[e|a] s']; reflexivity. Qed.

Ltac run_step :=
  match goal with
  | |- context [bind (infer_gender ?t) _ ?st] =>
      let g := fresh "g" in let s1 := fresh "s" in let E := fresh "E" in
      let H := fresh "H" in let P := fresh "P" in
      destruct (infer_gender_known t st) as [g [s1 [E H]]];
      pose proof (fs_pure_infer_gender t st) as P; rewrite E in P; simpl in P;
      let T := fresh "T" in
      assert (T : gender_truthy (Some g) = true) by (destruct H as [-> | ->]; reflexivity);
      rewrite (bind_inr _ _ _ _ _ E)
  | |- context [bind (_infer_age_from_context ?c ?gg) _ ?st] =>
      let a := fresh "a" in let s1 := fresh "s" in let E := fresh "E" in
      let H := fresh "H" in let P := fresh "P" in
      destruct (infer_age_positive c gg st) as [a [s1 [E H]]];
      pose proof (fs_pure_infer_age c gg st) as P; rewrite E in P; simpl in P;
      let T := fresh "T" in
      assert (T : (a =? 0)%Z = false) by (apply Z.eqb_neq; lia);
      rewrite (bind_inr _ _ _ _ _ E)
  | |- context [bind (ret ?x) _ ?st] => rewrite (bind_inr (ret x) _ st x st eq_refl)
  | |- context [bind (bind ?c ?k1) ?k2 ?st] => rewrite (bind_assoc c k1 k2 st)
  end.

Ltac truthy_rw :=
  repeat match goal with
  | H : gender_truthy _ = _ |- _ => rewrite H
  | H : (?x =? 0)%Z = false |- _ => rewrite H
  end; cbn [age_truthy negb andb]; rewrite ?andb_false_r, ?andb_true_r;
  repeat match goal with H : Z.eqb ?x 0 = false |- context [Z.eqb ?x 0] => rewrite H end;
  cbn [negb].

Lemma masc_U : Extract.masc = U "masculino".
Proof. reflexivity. Qed.

Lemma fem_U : Extract.fem = U "feminino".
Proof. reflexivity. Qed.

Lemma gt_none : gender_truthy None = false.
Proof. reflexivity. Qed.

Lemma resolve_spec t a g s :
  match a with Some z => (0 <= z)%Z | None => True end -> gsp g ->
  exists z g' s', resolve t a g s = (inr (Some z, Some g'), s') /\ (0 < z)%Z /\
    (g' = U "masculino" \/ g' = U "feminino") /\ st_fs s' = st_fs s.
Proof.
  intros Ha Hg. unfold resolve.
  assert (Hm : gender_truthy (Some Extract.masc) = true) by reflexivity.
  assert (Hf : gender_truthy (Some Extract.fem) = true) by reflexivity.
  pose proof gt_none as Hn.
  destruct a as [z|]; [destruct (Z.eqb_spec z 0) as [Hz0|Hz0] |].
  1: subst z. 2: (assert (Hzb : (z =? 0)%Z = false) by (apply Z.eqb_neq; exact Hz0)).
  all: destruct Hg as [ -> | [ -> | -> ] ]; cbn [age_truthy negb]; try rewrite Z.eqb_refl; truthy_rw.
  all: repeat (run_step; cbv beta iota; truthy_rw).
  all: eexists _, _, _; split; [reflexivity|]; split; [lia|]; split;
    [ first [ exact H | exact H0 | exact H1 | left; exact masc_U | right; exact fem_U ]
    | repeat match goal with P : st_fs ?x = _ |- st_fs ?x = _ => rewrite P end; reflexivity ].
Qed.

Lemma update_ident_count l :
  length (List.filter Checks.is_ident (update_first_ident l)) = length (List.filter Checks.is_ident l).
Proof.
  induction l as [|[k inf] r IH]; [reflexivity|]. simpl.
  destruct (Checks.is_ident {| i_key := k; i_informacao := inf |}) eqn:E.
  - destruct (CleanIdentification._clean_existing_identification _); simpl; rewrite ?E; try reflexivity.
    unfold Checks.is_ident in *; simpl in *. rewrite E. reflexivity.
  - simpl. rewrite E. exact IH.
Qed.

Lemma update_non_ident l :
  List.filter (fun i => negb (Checks.is_ident i)) (update_first_ident l) =
  List.filter (fun i => negb (Checks.is_ident i)) l.
Proof.
  induction l as [|[k inf] r IH]; [reflexivity|]. simpl.
  destruct (Checks.is_ident {| i_key := k; i_informacao := inf |}) eqn:E.
  - destruct (CleanIdentification._clean_existing_identification _); simpl; rewrite ?E; try reflexivity.
    unfold Checks.is_ident in *; simpl in *. rewrite E. reflexivity.
  - simpl. rewrite E. simpl. f_equal. exact IH.
Qed.

Lemma ident_field_is_ident n a g o m org c :
  Checks.is_ident (_create_identification_field n a g o m org c) = true.
Proof. unfold Checks.is_ident. simpl. apply str_eqb_true. reflexivity. Qed.

Lemma correct_msg d cm : Checks._is_file_already_correct d = (true, cm) -> cm = U "Arquivo já está correto".
Proof.
  unfold Checks._is_file_already_correct.
  destruct (d_descricao d); [destruct (CleanDescription.first_search _ _ _) as [[? ?]|] |]; intros H;
    first [ discriminate H | injection H as H2; exact (eq_sym H2) ].
Qed.

Lemma starts_with_app_l p a b : starts_with p a = true -> starts_with p (a ++ b) = true.
Proof.
  revert a. induction p as [|x p IH]; intros [|y a] H; simpl in *; try reflexivity; try discriminate.
  apply andb_true_iff in H as [H1 H2]. rewrite H1. simpl. apply IH, H2.
Qed.

Lemma contains_app_l sub l r : contains sub l = true -> contains sub (l ++ r) = true.
Proof.
  induction l as [|c l IH]; intros H.
  - simpl in H. destruct sub; [destruct r; reflexivity | discriminate].
  - simpl in *. apply orb_true_iff in H as [H|H].
    + pose proof (starts_with_app_l _ (c :: l) r H) as H'. simpl in H'. rewrite H'. reflexivity.
    + rewrite IH by exact H. apply orb_true_r.
Qed.

Lemma starts_with_digit sub a d r :
  is_digit d = true -> forallb (fun c => negb (is_digit c)) sub = true ->
  starts_with sub (a ++ d :: r) = starts_with sub a.
Proof.
  revert a. induction sub as [|x sub IH]; intros [|y a] Hd Hs; simpl in *; try reflexivity.
  - apply andb_true_iff in Hs as [Hx _]. destruct (N.eqb_spec x d); [subst; rewrite Hd in Hx; discriminate | reflexivity].
  - apply andb_true_iff in Hs as [_ Hs]. rewrite IH by assumption. reflexivity.
Qed.

Lemma contains_digits_r sub D c :
  sub <> [] -> forallb is_digit D = true -> forallb (fun c => negb (is_digit c)) sub = true ->
  contains sub (D ++ c) = contains sub c.
Proof.
  intros Hne HD Hs. induction D as [|d D IH]; [reflexivity|].
  simpl in HD. apply andb_true_iff in HD as [Hd HD]. simpl.
  pose proof (starts_with_digit sub [] d (D ++ c) Hd Hs) as E. simpl app in E. rewrite E. destruct sub; [congruence|]. simpl. exact (IH HD).
Qed.

Lemma contains_digits sub a D c :
  sub <> [] -> D <> [] -> forallb is_digit D = true -> forallb (fun c => negb (is_digit c)) sub = true ->
  contains sub (a ++ D ++ c) = contains sub a || contains sub c.
Proof.
  intros Hne HDn HD Hs. destruct D as [|d D']; [congruence|].
  pose proof HD as HD'. simpl in HD'. apply andb_true_iff in HD' as [Hd _].
  induction a as [|y a IH].
  - simpl (contains sub []). destruct sub; [congruence|]. simpl orb.
    exact (contains_digits_r _ _ _ Hne HD Hs).
  - pose proof (starts_with_digit sub (y :: a) d (D' ++ c) Hd Hs) as E. simpl app in *.
    simpl contains. rewrite IH, E. apply orb_assoc.
Qed.

Lemma digits_aux_digits f n acc :
  forallb is_digit acc = true -> forallb is_digit (digits_aux f n acc) = true /\ digits_aux f n acc <> [] \/ (f = O /\ digits_aux f n acc = acc).
Proof.
  revert n acc. induction f as [|f IH]; intros n acc H; [right; split; reflexivity|].
  left. simpl.
  assert (Hc : forallb is_digit ((48 + n mod 10) :: acc) = true).
  { simpl. rewrite H, andb_true_r. unfold is_digit. pose proof (N.mod_lt n 10 ltac:(discriminate)).
    apply andb_true_iff; split; apply N.leb_le; [apply N.le_add_r | apply (N.add_le_mono_l _ 9 48); apply N.lt_succ_r; exact H0]. }
  destruct (n <? 10); [split; [exact Hc | discriminate]|].
  destruct (IH (n / 10) _ Hc) as [H2 | [-> ->]]; [exact H2 | split; [exact Hc | discriminate]].
Qed.

Lemma show_nat_digits n :
  forallb is_digit (show_Z (Z.of_nat n)) = true /\ show_Z (Z.of_nat n) <> [].
Proof.
  unfold show_Z. replace (Z.of_nat n <? 0)%Z with false by (symmetry; apply Z.ltb_ge; lia).
  destruct (digits_aux_digits 64 (Z.to_N (Z.abs (Z.of_nat n))) [] eq_refl) as [H | [H _]]; [exact H | discriminate].
Qed.

Lemma lower_digits D : forallb is_digit D = true -> lower D = D.
Proof.
  induction D as [|d D IH]; [reflexivity|]. simpl. intros H. apply andb_true_iff in H as [Hd H].
  unfold lower in *. simpl. rewrite IH by exact H. f_equal.
  unfold is_digit in Hd. apply andb_true_iff in Hd as [H1 H2]. apply N.leb_le in H1, H2.
  unfold lower_c. replace ((65 <=? d) && (d <=? 90)) with false by (symmetry; apply andb_false_iff; left; apply N.leb_gt; lia).
  replace ((192 <=? d) && (d <=? 222)) with false by (symmetry; apply andb_false_iff; left; apply N.leb_gt; lia).
  reflexivity.
Qed.

Lemma cs_dup n : counted_success (msg_duplicates n) = false.
Proof.
  destruct (show_nat_digits n) as [HD HDn].
  unfold counted_success, has, msg_duplicates, lower. rewrite !map_app.
  fold (lower (show_Z (Z.of_nat n))). rewrite (lower_digits _ HD).
  rewrite contains_digits by (assumption || discriminate || (vm_compute; reflexivity)).
  vm_compute. reflexivity.
Qed.

Lemma cs_correct : counted_success (U "Arquivo já está correto: " ++ U "Arquivo já está correto") = false.
Proof. vm_compute. reflexivity. Qed.

Lemma cs_struct : counted_success (U "Arquivo não tem estrutura completa (falta instrucoesParticipante ou descricaoCasoCompleta)") = false.
Proof. vm_compute. reflexivity. Qed.

Lemma cs_err e : counted_success (U "Erro ao processar arquivo: " ++ exn_str e) = false.
Proof. destruct e; vm_compute; reflexivity. Qed.

Lemma cs_prefix (p : string) x : counted_success (U p) = true -> counted_success (U p ++ x) = true.
Proof. unfold counted_success, has, lower. rewrite map_app. apply contains_app_l. Qed.

Ltac fs_step c st pf :=
  let r := fresh "r" in let s1 := fresh "s" in let E := fresh "E" in let P := fresh "P" in
  destruct (c st) as [r s1] eqn:E;
  assert (P : st_fs s1 = st_fs st) by
    (pose proof (pf st) as P; rewrite E in P; exact P);
  destruct r as [?e|?x]; [rewrite (bind_inl _ _ _ _ _ E) | rewrite (bind_inr _ _ _ _ _ E)].

Ltac chain := repeat match goal with P : st_fs ?x = _ |- context [st_fs ?x] => rewrite P end.

Lemma body_outcome db p s :
  match body db p s with
  | (inl _, s') => st_fs s' = st_fs s
  | (inr (false, m), s') => st_fs s' = st_fs s /\ counted_success m = false
  | (inr (true, m), s') => counted_success m = true /\
      exists d d', st_fs s !! p = Some (FJson d) /\ st_fs s' = <[p := FJson d']> (st_fs s) /\ written_ok d d'
  end.
Proof.
  unfold body. rewrite (bind_inr get_fs _ s (st_fs s) s eq_refl). cbv beta.
  destruct (st_fs s !! p) as [[d|]|] eqn:Hp; [| reflexivity | reflexivity].
  destruct (Checks._check_duplicate_identification d) as [hdup cnt] eqn:Hdup.
  destruct hdup. { split; [reflexivity | apply cs_dup]. }
  destruct (Checks._is_file_already_correct d) as [ic cm] eqn:Hic.
  destruct (negb (0 <? cnt)%nat && ic) eqn:Hc.
  { split; [reflexivity|]. apply andb_true_iff in Hc as [_ Hc]. subst ic.
    rewrite (correct_msg _ _ Hic). apply cs_correct. }
  destruct (d_descricao d) as [desc|] eqn:Hdesc; [| split; [reflexivity | apply cs_struct]].
  destruct (extract_spec desc s) as (a & g & s1 & Ex & Ha & Hg & P1).
  rewrite (bind_inr _ _ _ _ _ Ex). cbv beta iota zeta.
  match goal with |- context [bind (resolve ?t a g) _ s1] =>
    destruct (resolve_spec t a g s1 Ha Hg) as (z & g' & s2 & Er & Hz & Hg' & P2);
    rewrite (bind_inr _ _ _ _ _ Er) end.
  cbv beta iota.
  assert (Tz : age_truthy (Some z) = true) by (cbn; apply negb_true_iff, Z.eqb_neq; lia).
  assert (Tg : gender_truthy (Some g') = true) by (destruct Hg' as [-> | ->]; reflexivity).
  rewrite Tz, Tg. cbn [negb orb].
  match goal with |- context [bind (_get_random_name ?db ?c) _ ?st] => fs_step (_get_random_name db c) st (fs_pure_get_random_name db c) end;
    [chain; reflexivity|].
  match goal with |- context [bind (_infer_occupation ?a ?c ?g) _ ?st] => fs_step (_infer_occupation a c g) st (fs_pure_infer_occupation a c g) end;
    [chain; reflexivity|].
  match goal with |- context [bind (_infer_marital_status ?a ?g) _ ?st] => fs_step (_infer_marital_status a g) st (fs_pure_infer_marital a g) end;
    [chain; reflexivity|].
  rewrite (bind_inr get_fs _ _ _ _ eq_refl).
  rewrite (bind_inr (put_fs _) _ _ _ _ eq_refl).
  cbv beta zeta.
  unfold Checks._check_duplicate_identification in Hdup. injection Hdup as Hd1 Hd2.
  unfold written_ok.
  destruct (0 <? cnt)%nat eqn:Hcnt; unfold ret; cbv beta iota; cbn [negb].
  - split; [apply cs_prefix; vm_compute; reflexivity|].
    exists d. eexists. split; [first [exact Hp | reflexivity]|]. split; [cbn [st_fs]; chain; reflexivity|].
    unfold Checks.info_array in *.
    destruct (d_infos d) as [l|] eqn:Hi; [| subst cnt; discriminate].
    cbn [with_descricao with_infos d_titulo d_descricao d_infos].
    split; [reflexivity|]. split.
    + unfold Checks._check_duplicate_identification, Checks.info_array. cbv zeta. cbn [d_infos with_descricao with_infos].
      rewrite update_ident_count. apply Nat.ltb_ge in Hd1. apply Nat.ltb_lt in Hcnt.
      replace (length (List.filter Checks.is_ident l)) with 1%nat by lia. reflexivity.
    + split; [apply update_non_ident|].
      exists desc, z, g'. split; [exact Hdesc|]. split; [reflexivity|]. split; [exact Hz | exact Hg'].
  - split; [apply cs_prefix; vm_compute; reflexivity|].
    exists d. eexists. split; [first [exact Hp | reflexivity]|]. split; [cbn [st_fs]; chain; reflexivity|].
    cbn [with_descricao with_infos d_titulo d_descricao d_infos].
    split; [reflexivity|]. split.
    + unfold Checks._check_duplicate_identification, Checks.info_array. cbv zeta. cbn [d_infos with_descricao with_infos].
      cbn [List.filter]. rewrite ident_field_is_ident. cbn [length].
      fold (Checks.info_array d). rewrite Hd2. apply Nat.ltb_ge in Hcnt.
      replace cnt with 0%nat by lia. reflexivity.
    + split.
      * unfold Checks.info_array at 1. cbn [d_infos with_descricao with_infos List.filter]. rewrite ident_field_is_ident. reflexivity.
      * exists desc, z, g'. split; [exact Hdesc|]. split; [reflexivity|]. split; [exact Hz | exact Hg'].
Qed.

Lemma process_file_outcome db p s :
  exists b m s', process_file db p s = (inr (b, m), s') /\ counted_success m = b /\
    (b = false -> st_fs s' = st_fs s) /\
    (b = true -> exists d d', st_fs s !! p = Some (FJson d) /\
                  st_fs s' = <[p := FJson d']> (st_fs s) /\ written_ok d d').
Proof.
  pose proof (body_outcome db p s) as H. unfold process_file, catch.
  destruct (body db p s) as [[e|[[|] m]] s'].
  - exists false, (U "Erro ao processar arquivo: " ++ exn_str e), s'.
    split; [reflexivity|]. split; [apply cs_err|]. split; [intros _; exact H | discriminate].
  - destruct H as [Hm Hw]. exists true, m, s'. split; [reflexivity|]. split; [exact Hm|].
    split; [discriminate | intros _; exact Hw].
  - destruct H as [Hf Hm]. exists false, m, s'. split; [reflexivity|]. split; [exact Hm|].
    split; [intros _; exact Hf | discriminate].
Qed.

Lemma report_errors_listed (L : list str) :
  Forall (fun m => (keyword_count m <= 1)%nat) L ->
  (Z.of_nat (length L) - Z.of_nat (length (List.filter counted_success L)) -
     Z.of_nat (length (List.filter counted_correct L)) -
     Z.of_nat (length (List.filter counted_duplicate L)))%Z =
  Z.of_nat (length (List.filter listed_as_error L)).
Proof.
  induction L as [|m L IH]; intros H; [reflexivity|].
  apply Forall_cons in H as [Hm H]. specialize (IH H).
  unfold keyword_count, listed_as_error in *. cbn [List.filter length].
  destruct (counted_success m), (counted_correct m), (counted_duplicate m);
    cbn [Nat.b2n negb orb length] in *; try lia.
Qed.

Lemma report_counts_errors results :
  (forall f m, results !! f = Some m -> (keyword_count m <= 1)%nat) ->
  let '(total_files, _, _, _, error_files) := report_counts results in
  error_files = Z.of_nat (length (List.filter listed_as_error (map snd (map_to_list results)))) /\
  (0 <= error_files <= total_files)%Z.
Proof.
  intros H. unfold report_counts. cbv zeta.
  rewrite <- length_map_to_list.
  rewrite <- (length_map snd (map_to_list results)).
  rewrite report_errors_listed.
  - split; [reflexivity|]. pose proof (List.filter_length_le listed_as_error (map snd (map_to_list results))). lia.
  - apply Forall_map, Forall_forall. intros [i x] Hin. apply elem_of_map_to_list in Hin. exact (H i x Hin).
Qed.

Lemma tracker_fold (l : list Names.category) (acc : gmap str (gset str)) (t : str) :
  fold_left (fun tr c => <[match Names.titulo c with Some t => t | None => [] end := ∅]> tr) l acc !! t =
  if existsb (fun c => str_eqb (title_key c) t) l then Some ∅ else acc !! t.
Proof.
  revert acc. induction l as [|c l IH]; intros acc; [reflexivity|].
  cbn [fold_left existsb]. rewrite IH. fold (title_key c).
  destruct (existsb _ l); [rewrite orb_true_r; reflexivity|]. rewrite orb_false_r.
  destruct (str_eqb (title_key c) t) eqn:E.
  - apply str_eqb_true in E. subst t. apply lookup_insert_eq.
  - apply lookup_insert_ne. intros Heq. subst t. unfold str_eqb in E. destruct (decide _); congruence.
Qed.

Lemma tracker_lookup db t :
  _initialize_used_names_tracker db !! t =
  if existsb (fun c => str_eqb (title_key c) t) db then Some ∅ else None.
Proof. unfold _initialize_used_names_tracker. rewrite tracker_fold. reflexivity. Qed.

Lemma infer_age_range c g s :
  exists a s', _infer_age_from_context c g s = (inr a, s') /\ (22 <= a <= 80)%Z /\ st_fs s' = st_fs s.
Proof.
  pose proof (fs_pure_infer_age c g s) as P.
  unfold _infer_age_from_context in *. split_ifs;
    match goal with |- context [choice_Z ?l s] =>
      destruct (choice_Z_in l s) as [a [s' [E Ha]]]; [discriminate|];
      rewrite E in P; exists a, s'; split; [exact E|]; split; [simpl in Ha; intuition lia | exact P]
    end.
Qed.

Lemma nlfree_spec s : nlfree s = true -> ~ In 10 s.
Proof.
  unfold nlfree. intros H Hin. apply negb_true_iff in H.
  assert (existsb (N.eqb 10) s = true) by (apply existsb_exists; exists 10; split; [exact Hin | apply N.eqb_refl]).
  congruence.
Qed.

Lemma incl_nl a b : incl a b -> ~ In 10 b -> ~ In 10 a.
Proof. intros H Hb Ha. apply Hb, H, Ha. Qed.

Lemma skipn_incl {A} n (l : list A) : incl (skipn n l) l.
Proof. intros x Hx. rewrite <- (firstn_skipn n l). apply in_or_app. right. exact Hx. Qed.

Lemma firstn_incl {A} n (l : list A) : incl (firstn n l) l.
Proof. intros x Hx. rewrite <- (firstn_skipn n l). apply in_or_app. left. exact Hx. Qed.

Lemma split_aux_incl f sep s acc :
  Forall (fun p => incl p (rev acc ++ s)) (split_aux f sep s acc).
Proof.
  revert s acc. induction f as [|f IH]; intros s acc; cbn [split_aux].
  - constructor; [apply incl_refl | constructor].
  - destruct s as [|c r].
    + constructor; [rewrite app_nil_r; apply incl_refl | constructor].
    + destruct (starts_with sep (c :: r)).
      * constructor; [apply incl_appl, incl_refl|].
        eapply Forall_impl; [apply IH |]. intros p Hp. simpl in Hp.
        eapply incl_tran; [exact Hp|]. apply incl_appr, skipn_incl.
      * eapply Forall_impl; [apply IH |]. intros p Hp. simpl in Hp.
        rewrite <- app_assoc in Hp. exact Hp.
Qed.

Lemma split_incl s sep : Forall (fun p => incl p s) (split s sep).
Proof. apply (split_aux_incl _ sep s []). Qed.

Lemma split_nl f s acc :
  (length s < f)%nat -> ~ In 10 acc -> Forall (fun p => ~ In 10 p) (split_aux f [10] s acc).
Proof.
  revert s acc. induction f as [|f IH]; intros s acc Hf Ha; [lia|]. cbn [split_aux].
  destruct s as [|c r].
  - constructor; [rewrite <- in_rev; exact Ha | constructor].
  - cbn [starts_with]. rewrite andb_true_r. destruct (N.eqb_spec 10 c) as [<- | Hc].
    + constructor; [rewrite <- in_rev; exact Ha|]. apply IH; [simpl in Hf |- *; change (skipn 0 r) with r; lia | intros []].
    + apply IH; [simpl in Hf; lia|]. intros [E | E]; [congruence | contradiction].
Qed.

Lemma lstrip_incl s : incl (lstrip s) s.
Proof.
  induction s as [|c r IH]; [apply incl_refl|]. cbn [lstrip].
  destruct (is_space c); [apply incl_tl, IH | apply incl_refl].
Qed.

Lemma strip_incl s : incl (strip s) s.
Proof.
  unfold strip. intros x Hx. apply in_rev in Hx. apply lstrip_incl in Hx.
  apply in_rev in Hx. apply lstrip_incl in Hx. exact Hx.
Qed.

Lemma split1_incl s sep : Forall (fun p => incl p s) (split1 s sep).
Proof.
  unfold split1. pose proof (split_incl s sep) as H.
  destruct (split s sep) as [|a rest]; [constructor; [apply incl_refl | constructor]|].
  inversion H as [|? ? Ha Hr]; subst.
  destruct rest; [constructor; [exact Ha | constructor]|].
  constructor; [exact Ha|]. constructor; [apply skipn_incl | constructor].
Qed.

Lemma nth_nl (l : list str) n : Forall (fun p => ~ In 10 p) l -> ~ In 10 (nth n l []).
Proof.
  intros H. destruct (Nat.lt_ge_cases n (length l)) as [Hn | Hn].
  - rewrite List.Forall_forall in H. apply H, nth_In, Hn.
  - rewrite nth_overflow by exact Hn. intros [].
Qed.

Lemma last_nl (l : list str) : Forall (fun p => ~ In 10 p) l -> ~ In 10 (List.last l []).
Proof.
  intros H. destruct l as [|a r] using rev_ind; [intros []|].
  rewrite last_last. rewrite List.Forall_forall in H. apply H, in_or_app. right. left. reflexivity.
Qed.

Lemma first_origin_in ps p : first_origin ps = Some p -> In p ps.
Proof.
  induction ps as [|q r IH]; [discriminate|]. cbn [first_origin].
  destruct (any_in _ _); [intros H; injection H as <-; left; reflexivity | intros H; right; apply IH, H].
Qed.

Lemma nl_insert ev k v : ~ In 10 v -> nl_free_map ev -> nl_free_map (<[k := v]> ev).
Proof. intros Hv He. apply map_Forall_insert_2; assumption. Qed.

Ltac nl_ins := repeat first [ assumption | apply nl_insert ].

Lemma colon_line_nl ev line : ~ In 10 line -> nl_free_map ev -> nl_free_map (colon_line ev line).
Proof.
  intros Hl He. unfold colon_line. destruct (contains _ line); [|exact He].
  pose proof (split1_incl line (U ":")) as Hs.
  destruct (split1 line (U ":")) as [|key [|value [|]]]; try exact He.
  inversion Hs as [|? ? _ Hr]; subst. inversion Hr as [|? ? Hv _]; subst.
  assert (Hsv : ~ In 10 (strip value)) by (eapply incl_nl; [apply strip_incl | eapply incl_nl; eassumption]).
  cbv zeta. repeat case_match; nl_ins.
Qed.

Lemma comma_line_nl ev line : ~ In 10 line -> nl_free_map ev -> nl_free_map (comma_line ev line).
Proof.
  intros Hl He. unfold comma_line. cbv zeta.
  set (parts := map strip (split line (U ","))).
  assert (Hp : Forall (fun p => ~ In 10 p) parts).
  { apply List.Forall_forall. intros p Hp. unfold parts in Hp. apply in_map_iff in Hp as [x [<- Hx]].
    pose proof (split_incl line (U ",")) as Hi. rewrite List.Forall_forall in Hi.
    eapply incl_nl; [apply strip_incl | eapply incl_nl; [apply Hi, Hx | exact Hl]]. }
  pose proof (nth_nl parts 0 Hp). pose proof (nth_nl parts 1 Hp). pose proof (nth_nl parts 2 Hp).
  pose proof (last_nl parts Hp) as Hlast.
  assert (Hs1 : forall a b, split1 (List.last parts []) (U " e ") = [a; b] -> ~ In 10 (strip a) /\ ~ In 10 (strip b)).
  { intros a b E. pose proof (split1_incl (List.last parts []) (U " e ")) as Hi. rewrite E in Hi.
    inversion Hi as [|? ? Ha Hr]; subst. inversion Hr as [|? ? Hb _]; subst.
    split; (eapply incl_nl; [apply strip_incl | eapply incl_nl; eassumption]). }
  assert (Ho : forall p, first_origin (firstn (length parts - 4) (skipn 3 parts)) = Some p -> ~ In 10 p).
  { intros p E. apply first_origin_in, firstn_incl, skipn_incl in E. rewrite List.Forall_forall in Hp. auto. }
  repeat match goal with
    | |- context [if ?b then _ else _] => destruct b
    | |- context [match first_origin ?x with _ => _ end] => destruct (first_origin x) eqn:?
    | |- context [match split1 ?x ?y with _ => _ end] => destruct (split1 x y) as [|? [|? [|]]] eqn:?
    end;
    repeat match goal with
    | H : forall a b : str, [?x; ?y] = [a; b] -> _ |- _ => destruct (H x y eq_refl); clear H
    | H : forall p : str, Some ?x = Some p -> _ |- _ => pose proof (H x eq_refl); clear H
    end; nl_ins.
Qed.

Lemma fold_colon_nl lines ev :
  Forall (fun l => ~ In 10 l) lines -> nl_free_map ev -> nl_free_map (fold_left colon_line lines ev).
Proof.
  revert ev. induction lines as [|l r IH]; intros ev Hl He; [exact He|].
  inversion Hl; subst. simpl. apply IH; [assumption | apply colon_line_nl; assumption].
Qed.

Lemma fold_comma_nl lines ev :
  Forall (fun l => ~ In 10 l) lines -> nl_free_map ev -> nl_free_map (fold_left comma_line lines ev).
Proof.
  revert ev. induction lines as [|l r IH]; intros ev Hl He; [exact He|].
  inversion Hl; subst. simpl. apply IH; [assumption | apply comma_line_nl; assumption].
Qed.

Lemma const_nl (tbl : list (str * str)) :
  forallb (fun p => nlfree (snd p)) tbl = true -> Forall (fun p => ~ In 10 (snd p)) tbl.
Proof.
  intros H. apply List.Forall_forall. intros p Hp. apply nlfree_spec.
  exact (proj1 (forallb_forall _ tbl) H p Hp).
Qed.

Lemma defaults_fold_nl (tbl : list (str * str)) ev :
  Forall (fun p => ~ In 10 (snd p)) tbl -> nl_free_map ev ->
  nl_free_map (fold_left (fun ev '(k, d) => match ev !! k with
                                            | Some (_ :: _) => ev
                                            | _ => <[k := d]> ev
                                            end) tbl ev).
Proof.
  revert ev. induction tbl as [|[k d] r IH]; intros ev Hd He; [exact He|].
  inversion Hd; subst. cbn [fold_left]. apply IH; [assumption|].
  destruct (ev !! k) as [[|? ?]|]; [apply nl_insert; assumption | exact He | apply nl_insert; assumption].
Qed.

Lemma apply_defaults_nl ev : nl_free_map ev -> nl_free_map (apply_defaults ev).
Proof.
  apply defaults_fold_nl, const_nl. vm_compute. reflexivity.
Qed.

Lemma find_snd_nl (f : str * str -> bool) tbl k v :
  Forall (fun p => ~ In 10 (snd p)) tbl -> List.find f tbl = Some (k, v) -> ~ In 10 v.
Proof.
  intros H E. apply find_some in E as [Hin _]. rewrite List.Forall_forall in H. exact (H _ Hin).
Qed.

Lemma correct_marital_nl ev : nl_free_map ev -> nl_free_map (correct_marital ev).
Proof.
  intros He. unfold correct_marital. destruct (known_gender _); [|exact He]. cbv zeta.
  assert (Hc : forall g, Forall (fun p => ~ In 10 (snd p)) (corrections g)).
  { intros g. apply const_nl. unfold corrections. destruct (str_eqb g _); vm_compute; reflexivity. }
  destruct (List.find _ _) as [[k v]|] eqn:E; [| exact He].
  apply nl_insert; [eapply find_snd_nl; [apply Hc | exact E] | exact He].
Qed.

Lemma correct_occupation_nl ev : nl_free_map ev -> nl_free_map (correct_occupation ev).
Proof.
  intros He. unfold correct_occupation. destruct (known_gender _); [|exact He]. cbv zeta.
  assert (Hc : forall g, Forall (fun p => ~ In 10 (snd p)) (occupation_corrections g)).
  { intros g. apply const_nl. unfold occupation_corrections. destruct (str_eqb g _); vm_compute; reflexivity. }
  destruct (List.find _ _) as [[k v]|] eqn:E; [| exact He].
  apply nl_insert; [eapply find_snd_nl; [apply Hc | exact E] | exact He].
Qed.

Lemma values_list_nl ev : nl_free_map ev -> Forall (fun v => ~ In 10 v) (values_list ev).
Proof.
  intros He. unfold values_list. induction order as [|k r IH]; [constructor|].
  cbn [fold_right]. destruct (ev !! k) as [v|] eqn:E; [| exact IH].
  destruct (str_eqb v _); [exact IH|]. constructor; [exact (map_Forall_lookup_1 _ _ _ _ He E) | exact IH].
Qed.

Lemma join_nl sep l : ~ In 10 sep -> Forall (fun v => ~ In 10 v) l -> ~ In 10 (join sep l).
Proof.
  intros Hs. induction l as [|a r IH]; intros Hl; [intros []|].
  inversion Hl; subst. destruct r as [|b r]; [assumption|].
  change (join sep (a :: b :: r)) with (a ++ sep ++ join sep (b :: r)).
  intros Hin. apply in_app_iff in Hin as [Hin | Hin]; [contradiction|].
  apply in_app_iff in Hin as [Hin | Hin]; [contradiction | exact (IH ltac:(assumption) Hin)].
Qed.

Lemma render_nl vs : Forall (fun v => ~ In 10 v) vs -> ~ In 10 (render vs).
Proof.
  intros H. unfold render.
  assert (He : ~ In 10 (U " e ")) by (apply nlfree_spec; vm_compute; reflexivity).
  assert (Hc : ~ In 10 (U ", ")) by (apply nlfree_spec; vm_compute; reflexivity).
  destruct vs as [|a [|b [|c r]]]; [intros [] | inversion H; assumption | |].
  - inversion H as [|? ? Ha Hr]; subst. inversion Hr; subst.
    intros Hin. repeat (apply in_app_iff in Hin as [Hin | Hin]; [contradiction|]). contradiction.
  - intros Hin. apply in_app_iff in Hin as [Hin | Hin].
    + revert Hin. apply join_nl; [exact Hc|]. apply List.Forall_forall. intros x Hx.
      rewrite List.Forall_forall in H. apply H. 
      destruct (exists_last (l := a :: b :: c :: r) ltac:(discriminate)) as [l' [y Ey]].
      rewrite Ey in Hx |- *. rewrite removelast_last in Hx. apply in_or_app. left. exact Hx.
    + apply in_app_iff in Hin as [Hin | Hin]; [contradiction|]. revert Hin. apply last_nl, H.
Qed.

Lemma clean_identification_one_line (info_text : str) :
  ~ In 10 (_clean_existing_identification info_text).
Proof.
  unfold _clean_existing_identification. destruct info_text as [|c r]; [intros []|]. cbv zeta.
  set (lines := List.filter _ _).
  assert (Hl : Forall (fun l => ~ In 10 l) lines).
  { unfold lines. apply List.Forall_forall. intros l Hin. apply filter_In in Hin as [Hin _].
    apply in_map_iff in Hin as [x [<- Hx]].
    pose proof (split_nl (S (length (c :: r))) (c :: r) [] ltac:(lia) (fun H => H)) as Hs.
    rewrite List.Forall_forall in Hs. eapply incl_nl; [apply strip_incl | apply Hs, Hx]. }
  apply render_nl, values_list_nl, correct_occupation_nl, correct_marital_nl, apply_defaults_nl.
  destruct (existsb _ _); [apply fold_colon_nl | apply fold_comma_nl]; try exact Hl; intros k v E; rewrite lookup_empty in E; discriminate.
Qed.

(** ** Further properties of the cleaner *)

(** X1: [process_file] never lets an exception escape (every run returns a
    pair), and when it reports failure with one of its own messages (one
    that does not start with the exception handler's prefix
    [Erro ao processar arquivo: ]) the file system is unchanged: every
    such return comes before the save. *)
Theorem x1_process_file_failure_keeps_files db path s :
  exists b m s', process_file db path s = (inr (b, m), s') /\
    (b = false -> starts_with (U "Erro ao processar arquivo: ") m = false -> st_fs s' = st_fs s).
Proof.
  destruct (process_file_outcome db path s) as (b & m & s' & E & _ & Hf & _).
  exists b, m, s'. split; [exact E|]. intros Hb _. exact (Hf Hb).
Qed.

(** X2: when [process_file] reports success, the path held a JSON record
    and now holds a new one that keeps the title and every entry that is
    not an identification entry (in order), and holds exactly one
    IDENTIFICAÇÃO DO PACIENTE entry. *)
Theorem x2_process_file_success_write db path s :
  exists b m s', process_file db path s = (inr (b, m), s') /\
    (b = true -> exists d d', st_fs s !! path = Some (FJson d) /\
       st_fs s' !! path = Some (FJson d') /\
       d_titulo d' = d_titulo d /\
       Checks._check_duplicate_identification d' = (false, 1%nat) /\
       List.filter (fun i => negb (Checks.is_ident i)) (Checks.info_array d') =
         List.filter (fun i => negb (Checks.is_ident i)) (Checks.info_array d)).
Proof.
  destruct (process_file_outcome db path s) as (b & m & s' & E & _ & _ & Ht).
  exists b, m, s'. split; [exact E|]. intros Hb.
  destruct (Ht Hb) as (d & d' & Hd & Hs & Ht' & Hdup & Hn & _).
  exists d, d'. rewrite Hs, lookup_insert_eq.
  exact (conj Hd (conj eq_refl (conj Ht' (conj Hdup Hn)))).
Qed.

(** X3: when [process_file] reports success, the written record's
    narrative is [_clean_description] of the original narrative, called
    with a positive age and the gender masculino or feminino. *)
Theorem x3_process_file_success_description db path s :
  exists b m s', process_file db path s = (inr (b, m), s') /\
    (b = true -> exists d d' desc a g, st_fs s !! path = Some (FJson d) /\
       st_fs s' !! path = Some (FJson d') /\
       d_descricao d = Some desc /\ d_descricao d' = Some (_clean_description desc a g) /\
       (0 < a)%Z /\ (g = U "masculino" \/ g = U "feminino")).
Proof.
  destruct (process_file_outcome db path s) as (b & m & s' & E & _ & _ & Ht).
  exists b, m, s'. split; [exact E|]. intros Hb.
  destruct (Ht Hb) as (d & d' & Hd & Hs & _ & _ & _ & desc & a & g & H1 & H2 & H3 & H4).
  exists d, d', desc, a, g. split; [exact Hd|]. split; [rewrite Hs; apply lookup_insert_eq|].
  exact (conj H1 (conj H2 (conj H3 H4))).
Qed.

(** X4: a [process_file] run that reports success returns a message with
    the report's success keyword ("sucesso" in the lowered message), and
    a run that reports failure with one of its own messages (not the
    exception handler's, which starts with [Erro ao processar arquivo: ])
    returns a message without it. *)
Theorem x4_process_file_message_counted db path s :
  exists b m s', process_file db path s = (inr (b, m), s') /\
    (b = true -> counted_success m = true) /\
    (b = false -> starts_with (U "Erro ao processar arquivo: ") m = false -> counted_success m = false).
Proof.
  destruct (process_file_outcome db path s) as (b & m & s' & E & Hm & _).
  exists b, m, s'. split; [exact E|]. rewrite Hm. split; intros Hb; [exact Hb | intros _; exact Hb].
Qed.

(** X5: when every message of [results] contains at most one of the three
    report keywords, the error count of [generate_report] (total minus the
    three keyword counts) equals the number of entries it lists under
    ERROS ENCONTRADOS, and lies between 0 and the total. *)
Theorem x5_report_error_count results :
  map_Forall (fun _ m => (keyword_count m <= 1)%nat) results ->
  let '(total_files, _, _, _, error_files) := report_counts results in
  error_files = Z.of_nat (length (List.filter listed_as_error (map snd (map_to_list results)))) /\
  (0 <= error_files <= total_files)%Z.
Proof.
  intros H. apply report_counts_errors. intros f m E. exact (map_Forall_lookup_1 _ _ _ _ H E).
Qed.

(** X9: the tracker built by [_initialize_used_names_tracker] maps a key to
    the empty set exactly when some category has that title (a missing
    title counting as the empty string), and has no other key. *)
Theorem x9_tracker_keys db t :
  _initialize_used_names_tracker db !! t =
  if existsb (fun c => str_eqb (title_key c) t) db then Some ∅ else None.
Proof. exact (tracker_lookup db t). Qed.

(** X10: [_infer_age_from_context] never raises, returns an age between 22
    and 80, and does not touch the files. *)
Theorem x10_infer_age_range c g s :
  exists a s', _infer_age_from_context c g s = (inr a, s') /\ (22 <= a <= 80)%Z /\ st_fs s' = st_fs s.
Proof. exact (infer_age_range c g s). Qed.

(** X11: [_extract_age_gender_from_description] never raises; the age it
    returns is absent or non-negative, the gender is absent, masculino or
    feminino, and the files are untouched. *)
Theorem x11_extraction_result d s :
  exists a g s', Extract._extract_age_gender_from_description d s = (inr (a, g), s') /\
    match a with Some z => (0 <= z)%Z | None => True end /\
    (g = None \/ g = Some (U "masculino") \/ g = Some (U "feminino")) /\ st_fs s' = st_fs s.
Proof.
  destruct (extract_spec d s) as (a & g & s' & E & Ha & Hg & P).
  exists a, g, s'. split; [exact E|]. split; [exact Ha|]. split; [exact Hg | exact P].
Qed.

(** X12: the age and gender fallback of [process_file], given what the
    extraction can return (an absent or non-negative age, an absent or
    known gender), always ends with a positive age and the gender
    masculino or feminino, without touching the files. *)
Theorem x12_fallback_completes title a g s :
  match a with Some z => (0 <= z)%Z | None => True end ->
  (g = None \/ g = Some (U "masculino") \/ g = Some (U "feminino")) ->
  exists z g' s', resolve title a g s = (inr (Some z, Some g'), s') /\ (0 < z)%Z /\
    (g' = U "masculino" \/ g' = U "feminino") /\ st_fs s' = st_fs s.
Proof. intros Ha Hg. exact (resolve_spec title a g s Ha Hg). Qed.

(** X13: the normalized identification text of
    [_clean_existing_identification] never contains a newline, whatever
    the input. *)
Theorem x13_clean_identification_one_line (info_text : str) :
  ~ In 10 (_clean_existing_identification info_text).
Proof. exact (clean_identification_one_line info_text). Qed.

Lemma x5_witness :
  map_Forall (fun _ m => (keyword_count m <= 1)%nat) report_example /\
  (let '(total_files, _, _, _, error_files) := report_counts report_example in
   error_files = Z.of_nat (length (List.filter listed_as_error (map snd (map_to_list report_example)))) /\
   (0 <= error_files <= total_files)%Z).
Proof.
  assert (H : map_Forall (fun _ m => (keyword_count m <= 1)%nat) report_example).
  { unfold report_example.
    apply map_Forall_insert_2; [apply Nat.leb_le; vm_compute; reflexivity|].
    apply map_Forall_insert_2; [apply Nat.leb_le; vm_compute; reflexivity|].
    apply map_Forall_empty. }
  split; [exact H | exact (x5_report_error_count report_example H)].
Defined.

Lemma x12_witness :
  (0 <= 30)%Z /\
  exists z g' s', resolve (U "Lombalgia") (Some 30%Z) None (init db_child [1; 2]%nat) = (inr (Some z, Some g'), s') /\
    (0 < z)%Z /\ (g' = U "masculino" \/ g' = U "feminino") /\ st_fs s' = st_fs (init db_child [1; 2]%nat).
Proof.
  split; [lia|].
  exact (x12_fallback_completes (U "Lombalgia") (Some 30%Z) None (init db_child [1; 2]%nat)
           ltac:(simpl; lia) (or_introl eq_refl)).
Defined.

End Theorems.
